(** * ModelPreview: the editing core of the research canvas

    A shallow embedding of [src/components/ModelPreview.tsx]: the graph
    data (nodes and links), the undo/redo history kept in React state, the
    click/delete state machine and the auto-layout routine, followed by the
    properties of the specification that concern them.

    Conventions of the embedding.
    - A React component is a function of its state.  A handler is run
      against the state of the render that created it (its closure) and
      returns the next state; an effect is run after the render, again
      against the rendered state.  A [useRef] cell is ordinary mutable
      state and is read live.
    - [JSON.parse(JSON.stringify v)] on the plain data used here is a
      structural copy, and comparing two [JSON.stringify] results is
      structural equality (all objects are built with the same key order).
    - Canvas coordinates are JavaScript numbers.  Every constant of the
      layout is an integer and both halvings it performs are of even
      numbers, so coordinates are modelled in [Z]; positions that the code
      merely copies stay whatever they were.  The positions that a drop
      and [addNode] compute from the pointer and from [Math.random] are
      integers here as well; no statement below depends on their
      arithmetic. *)

From Stdlib Require Import ZArith Lia List Ascii String.
From stdpp Require Import base decidable option numbers list strings.

Local Open Scope string_scope.
Local Open Scope list_scope.
Local Open Scope Z_scope.

(** ** Data model *)

Inductive NodeType := latent | observed.
Inductive LinkType := directed | covariance.
Inductive Mode := move | link.

Module Node.
Record t := mk { id : string; label : string; type : NodeType; x : Z; y : Z }.
End Node.

Module Link.
Record t := mk { source : string; target : string; type : LinkType }.
End Link.

(** An entry of the history array: [{nodes, links}]. *)
Module Snapshot.
Record t := mk { nodes : list Node.t; links : list Link.t }.
End Snapshot.

(** A stored model: [SavedModel] (the timestamp plays no role here). *)
Module SavedModel.
Record t := mk { id : string; name : string;
                 nodes : list Node.t; links : list Link.t }.
End SavedModel.

#[global] Instance NodeType_eq_dec : EqDecision NodeType.
Proof. solve_decision. Defined.
#[global] Instance LinkType_eq_dec : EqDecision LinkType.
Proof. solve_decision. Defined.
#[global] Instance Mode_eq_dec : EqDecision Mode.
Proof. solve_decision. Defined.
#[global] Instance Node_eq_dec : EqDecision Node.t.
Proof. solve_decision. Defined.
#[global] Instance Link_eq_dec : EqDecision Link.t.
Proof. solve_decision. Defined.
#[global] Instance Snapshot_eq_dec : EqDecision Snapshot.t.
Proof. solve_decision. Defined.
#[global] Instance Node_inhabited : Inhabited Node.t :=
  populate (Node.mk "" "" latent 0 0).

(** The state of the component: the two props owned by the parent
    ([nodes], [links]) and the [useState]/[useRef] cells the editing core
    uses.  The cells that only feed the rendering ([tempLineEnd],
    [mermaidSyntax], [viewMode], the saved-model list) are left out. *)
Record State := mkState {
  nodes : list Node.t;
  links : list Link.t;
  newNodeLabel : string;
  nodeType : NodeType;
  interactionMode : Mode;
  linkType : LinkType;
  linkingSourceId : option string;
  selectedNodeId : option string;
  selectedLinkIndex : option nat;
  history : list Snapshot.t;
  historyIndex : Z;
  isUndoRedoAction : bool
}.

(** The state setters. *)
Definition setNodes (v : list Node.t) (s : State) : State :=
  mkState v (links s) (newNodeLabel s) (nodeType s) (interactionMode s)
    (linkType s) (linkingSourceId s) (selectedNodeId s) (selectedLinkIndex s)
    (history s) (historyIndex s) (isUndoRedoAction s).
Definition setLinks (v : list Link.t) (s : State) : State :=
  mkState (nodes s) v (newNodeLabel s) (nodeType s) (interactionMode s)
    (linkType s) (linkingSourceId s) (selectedNodeId s) (selectedLinkIndex s)
    (history s) (historyIndex s) (isUndoRedoAction s).
Definition setNewNodeLabel (v : string) (s : State) : State :=
  mkState (nodes s) (links s) v (nodeType s) (interactionMode s)
    (linkType s) (linkingSourceId s) (selectedNodeId s) (selectedLinkIndex s)
    (history s) (historyIndex s) (isUndoRedoAction s).
Definition setNodeType (v : NodeType) (s : State) : State :=
  mkState (nodes s) (links s) (newNodeLabel s) v (interactionMode s)
    (linkType s) (linkingSourceId s) (selectedNodeId s) (selectedLinkIndex s)
    (history s) (historyIndex s) (isUndoRedoAction s).
Definition setInteractionMode (v : Mode) (s : State) : State :=
  mkState (nodes s) (links s) (newNodeLabel s) (nodeType s) v
    (linkType s) (linkingSourceId s) (selectedNodeId s) (selectedLinkIndex s)
    (history s) (historyIndex s) (isUndoRedoAction s).
Definition setLinkType (v : LinkType) (s : State) : State :=
  mkState (nodes s) (links s) (newNodeLabel s) (nodeType s) (interactionMode s)
    v (linkingSourceId s) (selectedNodeId s) (selectedLinkIndex s)
    (history s) (historyIndex s) (isUndoRedoAction s).
Definition setLinkingSourceId (v : option string) (s : State) : State :=
  mkState (nodes s) (links s) (newNodeLabel s) (nodeType s) (interactionMode s)
    (linkType s) v (selectedNodeId s) (selectedLinkIndex s)
    (history s) (historyIndex s) (isUndoRedoAction s).
Definition setSelectedNodeId (v : option string) (s : State) : State :=
  mkState (nodes s) (links s) (newNodeLabel s) (nodeType s) (interactionMode s)
    (linkType s) (linkingSourceId s) v (selectedLinkIndex s)
    (history s) (historyIndex s) (isUndoRedoAction s).
Definition setSelectedLinkIndex (v : option nat) (s : State) : State :=
  mkState (nodes s) (links s) (newNodeLabel s) (nodeType s) (interactionMode s)
    (linkType s) (linkingSourceId s) (selectedNodeId s) v
    (history s) (historyIndex s) (isUndoRedoAction s).
Definition setHistory (v : list Snapshot.t) (s : State) : State :=
  mkState (nodes s) (links s) (newNodeLabel s) (nodeType s) (interactionMode s)
    (linkType s) (linkingSourceId s) (selectedNodeId s) (selectedLinkIndex s)
    v (historyIndex s) (isUndoRedoAction s).
Definition setHistoryIndex (v : Z) (s : State) : State :=
  mkState (nodes s) (links s) (newNodeLabel s) (nodeType s) (interactionMode s)
    (linkType s) (linkingSourceId s) (selectedNodeId s) (selectedLinkIndex s)
    (history s) v (isUndoRedoAction s).
Definition setIsUndoRedoAction (v : bool) (s : State) : State :=
  mkState (nodes s) (links s) (newNodeLabel s) (nodeType s) (interactionMode s)
    (linkType s) (linkingSourceId s) (selectedNodeId s) (selectedLinkIndex s)
    (history s) (historyIndex s) v.

(** Statements of a handler read left to right. *)
Notation "s |> f" := (f s) (at level 45, left associativity, only parsing).

(** The component as first rendered: empty history, index [-1]. *)
Definition initialState (ns : list Node.t) (ls : list Link.t) : State :=
  mkState ns ls "" latent move directed None None None [] (-1) false.

(** The live graph as a snapshot value. *)
Definition graph (s : State) : Snapshot.t := Snapshot.mk (nodes s) (links s).

(** ** JavaScript array primitives used by the component *)

(** [a.slice(0, e)]: a negative end counts from the end of the array, an
    end past the length is clamped. *)
Definition slice0 {A} (e : Z) (a : list A) : list A :=
  let len := Z.of_nat (length a) in
  let k := if e <? 0 then Z.max (len + e) 0 else Z.min e len in
  take (Z.to_nat k) a.

(** [a.shift()]: drops the first element. *)
Definition shift {A} (a : list A) : list A := tail a.

(** [a[i]] for a number [i]: [undefined] outside the array. *)
Definition at_index {A} (a : list A) (i : Z) : option A :=
  if i <? 0 then None else a !! Z.to_nat i.

(** [a.length > 0] *)
Definition nonEmpty {A} (a : list A) : bool :=
  match a with [] => false | _ => true end.

(** [JSON.parse(JSON.stringify(v))] *)
Definition deepCopy {A} (v : A) : A := v.

(** ** History management *)

Definition HISTORY_LIMIT : Z := 20.

(** [saveToHistory], a [useCallback] over [historyIndex].  The history
    updater slices with the [historyIndex] captured by the closure
    ([closureIndex]), while both updaters are applied to the pending
    state [s]. *)
Definition saveToHistory (closureIndex : Z)
    (newNodes : list Node.t) (newLinks : list Link.t) (s : State) : State :=
  let prev := history s in
  let newHistory := slice0 (closureIndex + 1) prev in
  let entry := Snapshot.mk (deepCopy newNodes) (deepCopy newLinks) in
  let newHistory :=
    if HISTORY_LIMIT <=? Z.of_nat (length newHistory)
    then shift newHistory else newHistory in
  s |> setHistory (newHistory ++ [entry])
    |> setHistoryIndex (Z.min (historyIndex s + 1) (HISTORY_LIMIT - 1)).

(** [undo].  Reading a field of [history[historyIndex - 1]] when that is
    [undefined] throws after the flag was raised and before any setter. *)
Definition undo (s : State) : State :=
  if 0 <? historyIndex s then
    match at_index (history s) (historyIndex s - 1) with
    | Some prevState =>
        s |> setIsUndoRedoAction true
          |> setNodes (deepCopy (Snapshot.nodes prevState))
          |> setLinks (deepCopy (Snapshot.links prevState))
          |> setHistoryIndex (historyIndex s - 1)
          |> setSelectedNodeId None
          |> setSelectedLinkIndex None
    | None => s |> setIsUndoRedoAction true
    end
  else s.

(** [redo] *)
Definition redo (s : State) : State :=
  if historyIndex s <? Z.of_nat (length (history s)) - 1 then
    match at_index (history s) (historyIndex s + 1) with
    | Some nextState =>
        s |> setIsUndoRedoAction true
          |> setNodes (deepCopy (Snapshot.nodes nextState))
          |> setLinks (deepCopy (Snapshot.links nextState))
          |> setHistoryIndex (historyIndex s + 1)
          |> setSelectedNodeId None
          |> setSelectedLinkIndex None
    | None => s |> setIsUndoRedoAction true
    end
  else s.

(** The mount-only effect that seeds the history.  [cl] is the rendered
    state the effect closes over, [s] the pending state its setters
    update. *)
Definition seedEffect (cl s : State) : State * bool :=
  if (Nat.eqb (length (history cl)) 0) && nonEmpty (nodes cl)
  then (saveToHistory (historyIndex cl) (nodes cl) (links cl) s, true)
  else (s, false).

(** The test of the recording effect: is the rendered graph different
    from [history[historyIndex]]? *)
Definition differsFromCurrent (cl : State) : bool :=
  match at_index (history cl) (historyIndex cl) with
  | None => true
  | Some currentHistory =>
      negb (bool_decide (Snapshot.nodes currentHistory = nodes cl))
      || negb (bool_decide (Snapshot.links currentHistory = links cl))
  end.

(** The recording effect (dependencies: nodes, links, saveToHistory,
    history, historyIndex).  The result also tells whether a state setter
    ran, that is whether React renders again; the same holds for
    [seedEffect]. *)
Definition recordEffect (cl s : State) : State * bool :=
  let '(s1, changed) :=
    if negb (isUndoRedoAction s) then
      if nonEmpty (nodes cl) || nonEmpty (links cl) then
        if differsFromCurrent cl
        then (saveToHistory (historyIndex cl) (nodes cl) (links cl) s, true)
        else (s, false)
      else (s, false)
    else (s, false) in
  (s1 |> setIsUndoRedoAction false, changed).

(** Rendering until no effect changes the state any more.  Each pass is
    one render followed by the recording effect; [None] when the passes
    allowed are used up. *)
Fixpoint settle (passes : nat) (s : State) : option State :=
  match passes with
  | O => None
  | S passes' =>
      let '(s', changed) := recordEffect s s in
      if changed then settle passes' s' else Some s'
  end.

(** More passes than the history has room for entries. *)
Definition PASSES : nat := 21.

(** An event: its handler runs against the rendered state, then the
    component renders and its effects run.  (When a handler changes
    nothing React does not render again; the recording effect would then
    find nothing to do, see [settle_quiet].) *)
Definition dispatch (handler : State → State) (s : State) : option State :=
  settle PASSES (handler s).

(** Mounting: both effects run after the first render, against that same
    render; their updates are applied in order to the pending state. *)
Definition mountEffects (s0 : State) : State * bool :=
  let '(s1, seeded) := seedEffect s0 s0 in
  let '(s2, recorded) := recordEffect s0 s1 in
  (s2, seeded || recorded).

(** The component after mounting with the props [ns] and [ls]. *)
Definition mount (ns : list Node.t) (ls : list Link.t) : option State :=
  let '(s, changed) := mountEffects (initialState ns ls) in
  if changed then settle PASSES s else Some s.

(** ** Save / load *)

(** [loadModel]; [confirmed] is the answer of [window.confirm]. *)
Definition loadModel (model : SavedModel.t) (confirmed : bool) (s : State) : State :=
  if confirmed then
    let loadedNodes := deepCopy (SavedModel.nodes model) in
    let loadedLinks := deepCopy (SavedModel.links model) in
    s |> setNodes loadedNodes
      |> setLinks loadedLinks
      |> setHistory [Snapshot.mk loadedNodes loadedLinks]
      |> setHistoryIndex 0
  else s.

(** [createNewModel] *)
Definition createNewModel (confirmed : bool) (s : State) : State :=
  if confirmed then
    s |> setNodes []
      |> setLinks []
      |> setHistory [Snapshot.mk [] []]
      |> setHistoryIndex 0
  else s.

(** ** Auto layout *)

(** [autoLayout] copies every node into a fresh object ([newNodes]) and
    then assigns [x] and [y] of these objects through the arrays
    [latents], [observed], [exogenousLatents], ... which all hold
    references to the objects of [newNodes].  The objects are modelled as
    a heap, the list [newNodes] itself, and a reference is a position in
    it. *)
(** [{ ...n }] *)
Definition cloneNode (n : Node.t) : Node.t := n.

(** [node.x = v] and [node.y = v] through a reference *)
Definition setX (r : nat) (v : Z) (h : list Node.t) : list Node.t :=
  alter (λ n, Node.mk (Node.id n) (Node.label n) (Node.type n) v (Node.y n)) r h.
Definition setY (r : nat) (v : Z) (h : list Node.t) : list Node.t :=
  alter (λ n, Node.mk (Node.id n) (Node.label n) (Node.type n) (Node.x n) v) r h.

(** [newNodes.filter(p)]: the references of the objects satisfying [p],
    in array order. *)
Definition refsWhere (p : Node.t → bool) (h : list Node.t) : list nat :=
  List.filter (λ r, p (h !!! r)) (seq 0 (length h)).

Definition isLatent (n : Node.t) : bool := bool_decide (Node.type n = latent).
Definition isObserved (n : Node.t) : bool := bool_decide (Node.type n = observed).

(** [a.forEach((v, i) => ...)] threading the state the callback updates. *)
Fixpoint forEachFrom {A St} (i : nat) (f : A → nat → St → St) (a : list A) (s : St) : St :=
  match a with
  | [] => s
  | v :: a' => forEachFrom (S i) f a' (f v i s)
  end.
Definition forEach {A St} (f : A → nat → St → St) (a : list A) (s : St) : St :=
  forEachFrom 0 f a s.

(** [a.filter((v, i) => ...)] *)
Fixpoint filterFrom {A} (i : nat) (p : A → nat → bool) (a : list A) : list A :=
  match a with
  | [] => []
  | v :: a' => if p v i then v :: filterFrom (S i) p a' else filterFrom (S i) p a'
  end.
Definition filterIndexed {A} (p : A → nat → bool) (a : list A) : list A :=
  filterFrom 0 p a.

(** [a.findIndex(p)], [-1] when nothing is found *)
Fixpoint findIndexFrom {A} (i : nat) (p : A → bool) (a : list A) : Z :=
  match a with
  | [] => -1
  | v :: a' => if p v then Z.of_nat i else findIndexFrom (S i) p a'
  end.
Definition findIndex {A} (p : A → bool) (a : list A) : Z := findIndexFrom 0 p a.

Definition canvasPadding : Z := 100.
Definition layerGap : Z := 350.
Definition nodeGap : Z := 180.
Definition observedGap : Z := 100.

(** The test of step 2: no directed link from a latent targets [l]. *)
Definition isExogenous (h : list Node.t) (latents : list nat)
    (links : list Link.t) (l : nat) : bool :=
  negb (existsb (λ link,
          bool_decide (Link.target link = Node.id (h !!! l))
          && bool_decide (Link.type link = directed)
          && existsb (λ src, bool_decide (Node.id (h !!! src) = Link.source link)) latents)
        links).

(** [latents.filter(l => !exogenousLatents.find(ex => ex.id === l.id))] *)
Definition isEndogenous (h : list Node.t) (exogenousLatents : list nat) (l : nat) : bool :=
  match List.find (λ ex, bool_decide (Node.id (h !!! ex) = Node.id (h !!! l)))
                  exogenousLatents with
  | Some _ => false
  | None => true
  end.

(** Step 4: the left column. *)
Definition placeExogenous (exogenousLatents : list nat) (h : list Node.t) : list Node.t :=
  fst (forEach (λ node (_ : nat) '(h, currentY),
                  (h |> setX node canvasPadding |> setY node currentY,
                   currentY + nodeGap))
               exogenousLatents (h, canvasPadding)).

(** Step 5: where the right column starts. *)
Definition endoStartY (nExo nEndo : nat) : Z :=
  let totalExoHeight := Z.of_nat nExo * nodeGap in
  let totalEndoHeight := Z.of_nat nEndo * nodeGap in
  if (nEndo <? nExo)%nat
  then canvasPadding + (totalExoHeight - totalEndoHeight) / 2
  else canvasPadding.

Definition placeEndogenous (endogenousLatents : list nat) (startY : Z)
    (h : list Node.t) : list Node.t :=
  forEach (λ node i h,
             h |> setX node (canvasPadding + layerGap)
               |> setY node (startY + Z.of_nat i * nodeGap))
          endogenousLatents h.

(** Step 6: the observed variables connected to [latent], piece by piece.
    [observed.some(o => o.id === i)] and [observed.find(o => o.id === i)]: *)
Definition someObserved (h : list Node.t) (observed : list nat) (i : string) : bool :=
  existsb (λ o, bool_decide (Node.id (h !!! o) = i)) observed.
Definition findObserved (h : list Node.t) (observed : list nat) (i : string) : option nat :=
  List.find (λ o, bool_decide (Node.id (h !!! o) = i)) observed.

(** The test of the first [filter] on a link: one end is the latent, the
    other an observed variable. *)
Definition connects (h : list Node.t) (observed : list nat) (lid : string)
    (l : Link.t) : bool :=
  (bool_decide (Link.source l = lid) && someObserved h observed (Link.target l))
  || (bool_decide (Link.target l = lid) && someObserved h observed (Link.source l)).

(** The [map]: the first observed object with the id at the other end of
    the link, or [undefined] ([None]). *)
Definition otherEnd (h : list Node.t) (observed : list nat) (lid : string)
    (l : Link.t) : option nat :=
  let targetId :=
    if bool_decide (Link.source l = lid) then Link.target l else Link.source l in
  findObserved h observed targetId.

(** The last [filter]: [v && a.findIndex(t => t.id === v.id) === i].
    ([t.id] on an undefined [t] would throw; the array never holds one,
    see [otherEnd_defined].) *)
Definition firstOfItsId (h : list Node.t) (a : list (option nat))
    (v : option nat) (i : nat) : bool :=
  match v with
  | Some o =>
      bool_decide
        (findIndex (λ t, match t with
                         | Some o' => bool_decide (Node.id (h !!! o') = Node.id (h !!! o))
                         | None => false
                         end) a
         = Z.of_nat i)
  | None => false
  end.

Definition connectedObs (h : list Node.t) (observed : list nat)
    (links : list Link.t) (latent : nat) : list (option nat) :=
  let lid := Node.id (h !!! latent) in
  let picked :=
    map (otherEnd h observed lid) (List.filter (connects h observed lid) links) in
  filterIndexed (firstOfItsId h picked) picked.

Definition placeObserved (observed : list nat) (links : list Link.t)
    (latent : nat) (h : list Node.t) : list Node.t :=
  let connected := connectedObs h observed links latent in
  if (0 <? length connected)%nat then
    let totalWidth := (Z.of_nat (length connected) - 1) * observedGap in
    let startX := Node.x (h !!! latent) - totalWidth / 2 in
    forEach (λ obs i h,
               match obs with
               | Some o =>
                   let h := setX o (startX + Z.of_nat i * observedGap) h in
                   setY o (Node.y (h !!! latent) + 120) h
               | None => h
               end)
            connected h
  else h.

(** Steps 1 to 6 on the node array: the value handed to [setNodes]. *)
Definition layout (nodes : list Node.t) (links : list Link.t) : list Node.t :=
  let newNodes := map cloneNode nodes in
  let latents := refsWhere isLatent newNodes in
  let observed := refsWhere isObserved newNodes in
  let exogenousLatents := List.filter (isExogenous newNodes latents links) latents in
  let endogenousLatents := List.filter (isEndogenous newNodes exogenousLatents) latents in
  let h := placeExogenous exogenousLatents newNodes in
  let h := placeEndogenous endogenousLatents
             (endoStartY (length exogenousLatents) (length endogenousLatents)) h in
  forEach (λ latent (_ : nat) h, placeObserved observed links latent h) latents h.

(** [autoLayout]: nothing happens without nodes; otherwise the new array
    is set and recorded at once. *)
Definition autoLayout (s : State) : State :=
  let newNodes := map cloneNode (nodes s) in
  let latents := refsWhere isLatent newNodes in
  let observed := refsWhere isObserved newNodes in
  if Nat.eqb (length latents) 0 && Nat.eqb (length observed) 0 then s
  else
    let newNodes := layout (nodes s) (links s) in
    s |> setNodes newNodes
      |> saveToHistory (historyIndex s) newNodes (links s).

(** ** Interaction *)

(** The white space and line terminators that [trim] removes.  A label is
    held as the bytes of its UTF-8 text: U+0009 to U+000D and U+0020 are
    one byte each, *)
Definition isWhite (c : Ascii.ascii) : bool :=
  let n := Ascii.nat_of_ascii c in
  ((9 <=? n) && (n <=? 13) || (n =? 32))%nat.

(** U+00A0 is two bytes, *)
Definition isWhite2 (c1 c2 : Ascii.ascii) : bool :=
  let '(b1, b2) := (Ascii.nat_of_ascii c1, Ascii.nat_of_ascii c2) in
  ((b1 =? 194) && (b2 =? 160))%nat.

(** and U+1680, U+2000 to U+200A, U+2028, U+2029, U+202F, U+205F, U+3000
    and U+FEFF are three. *)
Definition isWhite3 (c1 c2 c3 : Ascii.ascii) : bool :=
  let '(b1, b2, b3) :=
    (Ascii.nat_of_ascii c1, Ascii.nat_of_ascii c2, Ascii.nat_of_ascii c3) in
  ((b1 =? 225) && (b2 =? 154) && (b3 =? 128)
   || (b1 =? 226) && (b2 =? 128)
      && ((128 <=? b3) && (b3 <=? 138) || (b3 =? 168) || (b3 =? 169) || (b3 =? 175))
   || (b1 =? 226) && (b2 =? 129) && (b3 =? 159)
   || (b1 =? 227) && (b2 =? 128) && (b3 =? 128)
   || (b1 =? 239) && (b2 =? 187) && (b3 =? 191))%nat.

(** [!label.trim()]: nothing but such characters. *)
Fixpoint isBlank (label : string) : bool :=
  match label with
  | EmptyString => true
  | String c1 rest1 =>
      if isWhite c1 then isBlank rest1
      else
        match rest1 with
        | EmptyString => false
        | String c2 rest2 =>
            if isWhite2 c1 c2 then isBlank rest2
            else
              match rest2 with
              | EmptyString => false
              | String c3 rest3 =>
                  if isWhite3 c1 c2 c3 then isBlank rest3 else false
              end
        end
  end.

(** [addNode].  [now] is the text of [Date.now()], [rx] and [ry] the two
    values of [Math.random() * 50]. *)
Definition addNode (now : string) (rx ry : Z) (s : State) : State :=
  if isBlank (newNodeLabel s) then s
  else
    let newNode :=
      Node.mk ("n" +:+ now) (newNodeLabel s) (nodeType s) (100 + rx) (100 + ry) in
    s |> setNodes (nodes s ++ [newNode])
      |> setNewNodeLabel "".

(** The duplicate test of [handleNodeClick]. *)
Definition linkExists (links : list Link.t) (linkingSourceId id : string)
    (linkType : LinkType) : bool :=
  existsb (λ l,
      (bool_decide (Link.source l = linkingSourceId) && bool_decide (Link.target l = id))
      || (bool_decide (linkType = covariance)
          && bool_decide (Link.source l = id)
          && bool_decide (Link.target l = linkingSourceId)))
    links.

(** [handleNodeClick] *)
Definition handleNodeClick (id : string) (s : State) : State :=
  match interactionMode s with
  | link =>
      match linkingSourceId s with
      | None => s |> setLinkingSourceId (Some id)
      | Some src =>
          if bool_decide (src = id) then s |> setLinkingSourceId None
          else
            (if negb (bool_decide (src = id)) then
               if negb (linkExists (links s) src id (linkType s))
               then s |> setLinks (links s ++ [Link.mk src id (linkType s)])
               else s
             else s)
            |> setLinkingSourceId None
      end
  | move =>
      s |> setSelectedNodeId (Some id)
        |> setSelectedLinkIndex None
  end.

(** [handleLinkClick] *)
Definition handleLinkClick (index : nat) (s : State) : State :=
  s |> setSelectedLinkIndex (Some index)
    |> setSelectedNodeId None.

(** The [onClick] of the canvas. *)
Definition handleCanvasClick (s : State) : State :=
  s |> setSelectedNodeId None
    |> setSelectedLinkIndex None.

(** [if (selectedNodeId)]: [null] and the empty string are falsy. *)
Definition truthy (v : option string) : bool :=
  match v with
  | Some EmptyString => false
  | Some _ => true
  | None => false
  end.

(** [handleDeleteSelected]; [confirmed] is the answer of [window.confirm]. *)
Definition handleDeleteSelected (confirmed : bool) (s : State) : State :=
  match selectedNodeId s with
  | Some sel =>
      if truthy (selectedNodeId s) then
        if confirmed then
          s |> setNodes (List.filter (λ n, negb (bool_decide (Node.id n = sel))) (nodes s))
            |> setLinks (List.filter (λ l, negb (bool_decide (Link.source l = sel))
                                           && negb (bool_decide (Link.target l = sel)))
                                     (links s))
            |> setSelectedNodeId None
        else s
      else
        match selectedLinkIndex s with
        | Some idx =>
            if confirmed then
              s |> setLinks (filterIndexed (λ _ i, negb (Nat.eqb i idx)) (links s))
                |> setSelectedLinkIndex None
            else s
        | None => s
        end
  | None =>
      match selectedLinkIndex s with
      | Some idx =>
          if confirmed then
            s |> setLinks (filterIndexed (λ _ i, negb (Nat.eqb i idx)) (links s))
              |> setSelectedLinkIndex None
          else s
      | None => s
      end
  end.

(** [onDragEnd] of the node [node]; [px], [py] are the drop point relative
    to the canvas ([e.clientX - rect.left], [e.clientY - rect.top]). *)
Definition handleDragEnd (node : Node.t) (px py : Z) (s : State) : State :=
  match interactionMode s with
  | move =>
      let newX := px - (if bool_decide (Node.type node = latent) then 50 else 60) in
      let newY := py - 25 in
      s |> setNodes (map (λ n, if bool_decide (Node.id n = Node.id node)
                               then Node.mk (Node.id n) (Node.label n) (Node.type n) newX newY
                               else n) (nodes s))
  | link => s
  end.

(** The two mode buttons. *)
Definition chooseMoveMode (s : State) : State :=
  s |> setInteractionMode move |> setLinkingSourceId None.
Definition chooseLinkMode (s : State) : State :=
  s |> setInteractionMode link |> setLinkingSourceId None.

(** ** Events *)

Inductive Event :=
| EvNewModel (confirmed : bool)
| EvLoadModel (model : SavedModel.t) (confirmed : bool)
| EvAutoLayout
| EvMoveMode
| EvLinkMode
| EvChooseLinkType (ty : LinkType)
| EvUndo
| EvRedo
| EvDeleteSelected (confirmed : bool)
| EvNodeClick (id : string)
| EvLinkClick (index : nat)
| EvCanvasClick
| EvDragEnd (node : Node.t) (px py : Z)
| EvTypeLabel (text : string)
| EvChooseNodeType (ty : NodeType)
| EvAddNode (now : string) (rx ry : Z).

(** The toolbar sits inside the canvas element and its buttons do not stop
    the click: after their own handler the canvas handler runs as well.
    Node and link clicks stop propagation; the form that adds a node is
    outside the canvas. *)
Definition handler (e : Event) (s : State) : State :=
  match e with
  | EvNewModel c => s |> createNewModel c |> handleCanvasClick
  | EvLoadModel m c => s |> loadModel m c |> handleCanvasClick
  | EvAutoLayout => s |> autoLayout |> handleCanvasClick
  | EvMoveMode => s |> chooseMoveMode |> handleCanvasClick
  | EvLinkMode => s |> chooseLinkMode |> handleCanvasClick
  | EvChooseLinkType ty => s |> setLinkType ty |> handleCanvasClick
  | EvUndo => s |> undo |> handleCanvasClick
  | EvRedo => s |> redo |> handleCanvasClick
  | EvDeleteSelected c => s |> handleDeleteSelected c |> handleCanvasClick
  | EvNodeClick id => s |> handleNodeClick id
  | EvLinkClick i => s |> handleLinkClick i
  | EvCanvasClick => s |> handleCanvasClick
  | EvDragEnd n px py => s |> handleDragEnd n px py
  | EvTypeLabel t => s |> setNewNodeLabel t
  | EvChooseNodeType ty => s |> setNodeType ty
  | EvAddNode now rx ry => s |> addNode now rx ry
  end.

Definition step (e : Event) (s : State) : option State := dispatch (handler e) s.

Fixpoint run (es : list Event) (s : State) : option State :=
  match es with
  | [] => Some s
  | e :: es' => match step e s with
                | Some s' => run es' s'
                | None => None
                end
  end.

(** ** Runs used in the statements *)

(** What any editing handler does to the props: [setNodes] and [setLinks]
    with new arrays. *)
Definition edit (g : Snapshot.t) (s : State) : State :=
  s |> setNodes (Snapshot.nodes g) |> setLinks (Snapshot.links g).

(** [n] times the same handler, each time followed by the effects. *)
Fixpoint repeatedly (n : nat) (h : State → State) (s : State) : option State :=
  match n with
  | O => Some s
  | S n' => match dispatch h s with
            | Some s' => repeatedly n' h s'
            | None => None
            end
  end.

(** A sequence of edits, each followed by the effects. *)
Fixpoint edits (gs : list Snapshot.t) (s : State) : option State :=
  match gs with
  | [] => Some s
  | g :: gs' => match dispatch (edit g) s with
                | Some s' => edits gs' s'
                | None => None
                end
  end.

(** ** Predicates on states *)

(** [history[historyIndex]] *)
Definition current (s : State) : option Snapshot.t :=
  at_index (history s) (historyIndex s).

(** The index designates an entry of the history. *)
Definition inBounds (s : State) : Prop :=
  0 ≤ historyIndex s ≤ Z.of_nat (length (history s)) - 1.

(** A well-formed history: at most [HISTORY_LIMIT] entries and an index
    that is [-1] or designates an entry. *)
Definition wf (s : State) : Prop :=
  Z.of_nat (length (history s)) ≤ HISTORY_LIMIT
  ∧ -1 ≤ historyIndex s ≤ Z.of_nat (length (history s)) - 1.

(** The live graph is the current entry and no replay is pending. *)
Definition consistent (s : State) : Prop :=
  wf s ∧ current s = Some (graph s) ∧ isUndoRedoAction s = false.

(** An edit to [g] that the recording effect stores: [g] is not the empty
    graph and differs from the graph [prev] it replaces. *)
Definition recordable (prev g : Snapshot.t) : Prop :=
  g ≠ Snapshot.mk [] [] ∧ g ≠ prev.

Fixpoint recordableSeq (prev : Snapshot.t) (gs : list Snapshot.t) : Prop :=
  match gs with
  | [] => True
  | g :: gs' => recordable prev g ∧ recordableSeq g gs'
  end.

(** ** Notions used in the statements and proofs *)

(** *** History *)

(** The history written by a recording whose closure holds the index of
    the state it updates: the entries kept, then the new one. *)
Definition kept (s : State) : list Snapshot.t :=
  if bool_decide (historyIndex s = HISTORY_LIMIT - 1)
  then tail (history s)
  else take (Z.to_nat (historyIndex s + 1)) (history s).

Definition recorded (s : State) (e : Snapshot.t) : list Snapshot.t :=
  kept s ++ [e].

(** The state after the recording effect has run once. *)
Definition rendered (s : State) : State := (recordEffect s s).1.

(** The entries at and below the index are the graphs [past], the most
    recent first (as far as the history reaches back). *)
Definition recent (s : State) (past : list Snapshot.t) : Prop :=
  ∀ j : nat, (j < length past)%nat → (j ≤ 19)%nat →
    at_index (history s) (historyIndex s - Z.of_nat j) = past !! j.

(** *** Links *)

(** A completed two-click gesture in link mode, with the link type chosen
    for it. *)
Definition gesture (a : string * string * LinkType) : list Event :=
  let '(src, tgt, ty) := a in [EvChooseLinkType ty; EvNodeClick src; EvNodeClick tgt].

(** What a gesture does to the link array. *)
Definition addLink (ls : list Link.t) (src tgt : string) (ty : LinkType) : list Link.t :=
  if bool_decide (src = tgt) then ls
  else if linkExists ls src tgt ty then ls
  else ls ++ [Link.mk src tgt ty].

Definition samePair (l1 l2 : Link.t) : Prop :=
  Link.source l1 = Link.source l2 ∧ Link.target l1 = Link.target l2.

Definition reversedPair (l1 l2 : Link.t) : Prop :=
  Link.source l1 = Link.target l2 ∧ Link.target l1 = Link.source l2.

(** The entry [later] repeats the entry [earlier] in the sense of the test
    made when it was drawn: the same ordered ends, or, when [later] is a
    covariance link, the ends in the other order. *)
Definition duplicateOf (later earlier : Link.t) : Prop :=
  samePair later earlier
  ∨ (Link.type later = covariance ∧ reversedPair later earlier).

(** No entry of the array repeats an entry before it. *)
Definition NoDuplicateLinks (ls : list Link.t) : Prop :=
  ∀ (i j : nat) (l1 l2 : Link.t),
    (i < j)%nat → ls !! i = Some l1 → ls !! j = Some l2 → ¬ duplicateOf l2 l1.

(** Two entries have the same pair as claim C2 compares them: the same
    ordered ends, or, when one of the two is a covariance link, the ends
    in the other order. *)
Definition samePairSymmetric (l1 l2 : Link.t) : Prop :=
  samePair l1 l2
  ∨ ((Link.type l1 = covariance ∨ Link.type l2 = covariance) ∧ reversedPair l1 l2).

(** The attempt (src, tgt, ty) repeats a link of [ls]: same ordered ends,
    or, for a covariance attempt, the ends in the other order. *)
Definition rejected (ls : list Link.t) (src tgt : string) (ty : LinkType) : Prop :=
  ∃ l, l ∈ ls ∧ ((Link.source l = src ∧ Link.target l = tgt)
                 ∨ (ty = covariance ∧ Link.source l = tgt ∧ Link.target l = src)).

(** *** Layout *)

(** What the layout never assigns: id, label and type. *)
Definition frame (n : Node.t) : string * string * NodeType :=
  (Node.id n, Node.label n, Node.type n).

Definition frames (h : list Node.t) : list (string * string * NodeType) :=
  frame <$> h.

(** The references the layout assigns through: the latents and what step 6
    collects for each of them. *)
Definition touchedBy (h : list Node.t) (links : list Link.t) : list nat :=
  let latents := refsWhere isLatent h in
  let observed := refsWhere isObserved h in
  latents ++ (latents ≫= λ lr, omap id (connectedObs h observed links lr)).

(** Two heaps with the same frames and the same objects at the
    references in [D]. *)
Definition agree (D : nat → Prop) (h h' : list Node.t) : Prop :=
  frames h = frames h' ∧ ∀ q, D q → h !! q = h' !! q.

(** A heap that differs from [h0] at most in the positions of the objects
    at the references in [W]. *)
Definition below (W : nat → Prop) (h0 h : list Node.t) : Prop :=
  frames h = frames h0 ∧ ∀ q, ¬ W q → h !! q = h0 !! q.

(** The link [l] joins the ids [a] and [b], in either direction. *)
Definition linked (l : Link.t) (a b : string) : Prop :=
  (Link.source l = a ∧ Link.target l = b) ∨ (Link.target l = a ∧ Link.source l = b).

(** Some link joins [n] to a latent node. *)
Definition attachedToLatent (ns : list Node.t) (ls : list Link.t) (n : Node.t) : Prop :=
  ∃ l m, l ∈ ls ∧ m ∈ ns ∧ Node.type m = latent ∧ linked l (Node.id m) (Node.id n).

(** No latent is the target of a directed link from another latent. *)
Definition allExogenous (ns : list Node.t) (ls : list Link.t) : Prop :=
  ∀ l m m', l ∈ ls → m ∈ ns → m' ∈ ns →
    Node.type m = latent → Node.type m' = latent → m ≠ m' →
    Link.type l = directed →
    ¬ (Link.source l = Node.id m ∧ Link.target l = Node.id m').

(** Every observed node is joined to some latent. *)
Definition observedAttached (ns : list Node.t) (ls : list Link.t) : Prop :=
  ∀ n, n ∈ ns → Node.type n = observed → attachedToLatent ns ls n.

(** *** Sample graphs and states *)

Definition nA : Node.t := Node.mk "a" "A" latent 10 20.
Definition gA : Snapshot.t := Snapshot.mk [nA] [].
Definition gB : Snapshot.t :=
  Snapshot.mk [nA; Node.mk "b" "B" observed 30 40] [Link.mk "a" "b" directed].

(** A full history with the index on its last entry. *)
Definition fullState : State :=
  mkState [nA] [] "" latent move directed None None None
          (replicate 19 gB ++ [gA]) 19 false.

(** Two nodes are added and deleted again; a label is typed for a third. *)
Definition emptied : list Event :=
  [EvTypeLabel "A"; EvAddNode "1" 0 0; EvTypeLabel "B"; EvAddNode "2" 3 4;
   EvNodeClick "n2"; EvDeleteSelected true; EvNodeClick "n1"; EvDeleteSelected true;
   EvTypeLabel "C"].

(** A stored model whose single node is where the layout puts it. *)
Definition laidOutModel : SavedModel.t :=
  SavedModel.mk "1" "Model 1"
    [Node.mk "a" "A" latent canvasPadding canvasPadding] [].

(** Two correlated factors with their indicators. *)
Definition twoFactors : State :=
  initialState
    [Node.mk "f1" "F1" latent 0 0; Node.mk "x1" "X1" observed 10 0;
     Node.mk "x2" "X2" observed 20 0; Node.mk "f2" "F2" latent 30 0;
     Node.mk "y1" "Y1" observed 40 0]
    [Link.mk "f1" "x1" directed; Link.mk "f1" "x2" directed;
     Link.mk "y1" "f2" directed; Link.mk "f1" "f2" covariance].

(** ** Drawing the links *)

(** [nodes.find(n => n.id === id)] *)
Definition findNode (ns : list Node.t) (id : string) : option Node.t :=
  find (λ n, bool_decide (Node.id n = id)) ns.

(** Where a line meets a node: [x + (type === 'latent' ? 50 : 60)] and
    [y + 25]. *)
Definition anchor (n : Node.t) : Z * Z :=
  (Node.x n + (if bool_decide (Node.type n = latent) then 50 else 60), Node.y n + 25).

(** The line drawn for a link, from [(x1, y1)] to [(x2, y2)]; nothing is
    drawn ([return null]) when an end is not found. *)
Definition linkLine (ns : list Node.t) (l : Link.t) : option ((Z * Z) * (Z * Z)) :=
  match findNode ns (Link.source l), findNode ns (Link.target l) with
  | Some source, Some target => Some (anchor source, anchor target)
  | _, _ => None
  end.

(** ** The Mermaid text *)

Definition newline : string := String (Ascii.ascii_of_nat 10) EmptyString.

Definition typeName (t : NodeType) : string :=
  match t with latent => "latent" | observed => "observed" end.

(** [node.label || node.id] *)
Definition displayLabel (node : Node.t) : string :=
  match Node.label node with
  | EmptyString => Node.id node
  | label => label
  end.

(** The effect that sets [mermaidSyntax] from [nodes], [links] and
    [isDark]; the text it computes.  ([safeLabel] is computed by the
    source and never used.) *)
Definition mermaidSyntax (isDark : bool) (nodes : list Node.t) (links : list Link.t)
    : string :=
  let syntax := "graph LR" +:+ newline in
  let syntax :=
    if isDark then
      let syntax := syntax +:+ "classDef latent fill:#1e293b,stroke:#e2e8f0,stroke-width:2px,rx:50,ry:50,color:#fff;" +:+ newline in
      syntax +:+ "classDef observed fill:#0f172a,stroke:#06b6d4,stroke-width:1px,rx:0,ry:0,color:#fff;" +:+ newline
    else
      let syntax := syntax +:+ "classDef latent fill:#fff,stroke:#333,stroke-width:2px,rx:50,ry:50;" +:+ newline in
      syntax +:+ "classDef observed fill:#f0f9ff,stroke:#0891b2,stroke-width:1px,rx:0,ry:0;" +:+ newline in
  let syntax :=
    forEach (λ node _ syntax,
        let shape :=
          if bool_decide (Node.type node = latent)
          then "((" +:+ displayLabel node +:+ "))"
          else "[" +:+ displayLabel node +:+ "]" in
        syntax +:+ (Node.id node +:+ shape +:+ ":::" +:+ typeName (Node.type node)
                    +:+ newline))
      nodes syntax in
  forEach (λ link _ syntax,
      let arrow := if bool_decide (Link.type link = covariance) then "<-->" else "-->" in
      syntax +:+ (Link.source link +:+ " " +:+ arrow +:+ " " +:+ Link.target link
                  +:+ newline))
    links syntax.

(** ** Saved models *)

(** A saved model with its [timestamp], the time of the [Date] in
    milliseconds. *)
Module Saved.
Record t := mk { model : SavedModel.t; timestamp : Z }.
End Saved.

(** The item [drsem_saved_models] of [localStorage] as the component
    leaves it: what was there before its first write ([Untouched]: no
    item, or any text), or the text that [JSON.stringify] makes of an
    array of saved models. *)
Inductive Stored :=
| Untouched
| StringifyOf (models : list Saved.t).

Record Library := mkLibrary {
  savedModels : list Saved.t;
  storedModels : Stored
}.

(** [saveCurrentModel]; [answer] is what [prompt] returns, [now] the text
    of [Date.now()] and [date] the time of [new Date()].  [written] tells
    whether [localStorage.setItem] returns: when it throws, the list of
    saved models has been set already and the item stays as it was. *)
Definition saveCurrentModel (answer : option string) (now : string) (date : Z)
    (written : bool) (s : State) (lib : Library) : Library :=
  match answer with
  | Some name =>
      if truthy answer then
        let newModel :=
          Saved.mk (SavedModel.mk now name (deepCopy (nodes s)) (deepCopy (links s))) date in
        let updatedModels := savedModels lib ++ [newModel] in
        mkLibrary updatedModels
                  (if written then StringifyOf updatedModels else storedModels lib)
      else lib
  | None => lib
  end.

(** ** Notions used in the further properties *)

(** The index designates an entry, or the history is still empty. *)
Definition indexed (s : State) : Prop :=
  (history s = [] ∧ historyIndex s = -1) ∨ inBounds s.

(** A state in which the render loop has come to rest. *)
Definition settled (s : State) : Prop :=
  wf s ∧ indexed s ∧ isUndoRedoAction s = false
  ∧ (graph s = Snapshot.mk [] [] ∨ current s = Some (graph s)).

Definition isReplay (e : Event) : Prop := e = EvUndo ∨ e = EvRedo.

(** What the handlers keep besides the graph and its history. *)
Definition view (s : State) :=
  (newNodeLabel s, nodeType s, interactionMode s, linkType s,
   linkingSourceId s, selectedNodeId s, selectedLinkIndex s).

(** Never a node and a link selected together; a pending link source only
    in link mode, a selected node only in move mode. *)
Definition coherent (s : State) : Prop :=
  (selectedNodeId s = None ∨ selectedLinkIndex s = None)
  ∧ (interactionMode s = move → linkingSourceId s = None)
  ∧ (interactionMode s = link → selectedNodeId s = None).

(** The events whose guard is closed in [s], or whose confirmation is
    declined. *)
Definition idle (e : Event) (s : State) : bool :=
  match e with
  | EvNewModel c => negb c
  | EvLoadModel _ c => negb c
  | EvAutoLayout => bool_decide (nodes s = [])
  | EvUndo => bool_decide (historyIndex s ≤ 0)
  | EvRedo => bool_decide (Z.of_nat (length (history s)) - 1 ≤ historyIndex s)
  | EvDeleteSelected c =>
      negb c || (negb (truthy (selectedNodeId s)) && bool_decide (selectedLinkIndex s = None))
  | EvNodeClick id =>
      bool_decide (interactionMode s = move)
      || bool_decide (linkingSourceId s = None)
      || bool_decide (linkingSourceId s = Some id)
  | EvDragEnd _ _ _ => bool_decide (interactionMode s = link)
  | EvAddNode _ _ _ => isBlank (newNodeLabel s)
  | EvMoveMode | EvLinkMode | EvChooseLinkType _ | EvLinkClick _ | EvCanvasClick
  | EvTypeLabel _ | EvChooseNodeType _ => true
  end.

Definition ids (ns : list Node.t) : list string := Node.id <$> ns.

(** The link joins two different nodes of [ns]. *)
Definition joins (ns : list Node.t) (l : Link.t) : Prop :=
  Link.source l ∈ ids ns ∧ Link.target l ∈ ids ns ∧ Link.source l ≠ Link.target l.

(** No link of the graph dangles or loops. *)
Definition sound (g : Snapshot.t) : Prop :=
  Forall (joins (Snapshot.nodes g)) (Snapshot.links g).

(** The live graph and every entry of the history are sound. *)
Definition soundState (s : State) : Prop :=
  sound (graph s) ∧ Forall sound (history s).

(** What is asked of an event.  A node click is on a node of the graph
    (only those are drawn); a model that is loaded is sound (the storage
    may hold any model); and the pending source of a link gesture, a node
    that was clicked earlier, still exists when the next node is
    clicked. *)
Definition admissible (e : Event) (s : State) : Prop :=
  match e with
  | EvLoadModel m true => sound (Snapshot.mk (SavedModel.nodes m) (SavedModel.links m))
  | EvNodeClick id =>
      id ∈ ids (nodes s) ∧ ∀ src, linkingSourceId s = Some src → src ∈ ids (nodes s)
  | _ => True
  end.

Fixpoint admissibleRun (es : list Event) (s : State) : Prop :=
  match es with
  | [] => True
  | e :: es' =>
      admissible e s
      ∧ match step e s with
        | Some s' => admissibleRun es' s'
        | None => True
        end
  end.

(** The object at the reference [r] of the heap [h] is at [(x, y)]. *)
Definition placedAt (h : list Node.t) (r : nat) (x y : Z) : Prop :=
  ∃ n, h !! r = Some n ∧ Node.x n = x ∧ Node.y n = y.

(** * Properties *)

(** ** Array primitives *)

Lemma at_index_Some {A} (a : list A) (i : Z) (v : A) :
  at_index a i = Some v ↔ 0 ≤ i ∧ a !! Z.to_nat i = Some v.
Proof.
  unfold at_index. destruct (Z.ltb_spec i 0); split; intros H1;
    first [done | destruct H1; first [lia | done]].
Qed.

Lemma at_index_nat {A} (a : list A) (n : nat) : at_index a (Z.of_nat n) = a !! n.
Proof.
  unfold at_index. destruct (Z.ltb_spec (Z.of_nat n) 0); [lia|].
  by rewrite Nat2Z.id.
Qed.

Lemma at_index_neg {A} (a : list A) (i : Z) : i < 0 → at_index a i = None.
Proof. unfold at_index. destruct (Z.ltb_spec i 0); [done | lia]. Qed.

Lemma slice0_take {A} (a : list A) (e : Z) :
  0 ≤ e ≤ Z.of_nat (length a) → slice0 e a = take (Z.to_nat e) a.
Proof.
  intros He. unfold slice0.
  destruct (Z.ltb_spec e 0); [lia|].
  f_equal. lia.
Qed.

Lemma slice0_length {A} (e : Z) (a : list A) :
  (length (slice0 e a) ≤ length a)%nat.
Proof. unfold slice0. rewrite length_take. lia. Qed.

Lemma length_shift {A} (a : list A) : length (shift a) = pred (length a).
Proof. by destruct a. Qed.

(** Copying every node yields the same array of values. *)
Lemma map_cloneNode ns : map cloneNode ns = ns.
Proof. induction ns as [|n ns IH]; simpl; [done|]. by rewrite IH. Qed.

(** ** One recording *)

Lemma saveToHistory_graph c ns ls s :
  nodes (saveToHistory c ns ls s) = nodes s ∧ links (saveToHistory c ns ls s) = links s
  ∧ isUndoRedoAction (saveToHistory c ns ls s) = isUndoRedoAction s.
Proof. done. Qed.

(** Whatever index the closure holds, a recording keeps the history within
    its limit. *)
Lemma saveToHistory_length c ns ls s :
  Z.of_nat (length (history s)) ≤ HISTORY_LIMIT →
  Z.of_nat (length (history (saveToHistory c ns ls s))) ≤ HISTORY_LIMIT.
Proof.
  intros Hb. unfold saveToHistory, HISTORY_LIMIT in *. simpl.
  pose proof (slice0_length (c + 1) (history s)) as Hs.
  rewrite length_app. simpl.
  destruct (Z.leb_spec 20 (Z.of_nat (length (slice0 (c + 1) (history s))))).
  - rewrite length_shift. lia.
  - lia.
Qed.

Lemma kept_length s :
  wf s → Z.of_nat (length (kept s)) = Z.min (historyIndex s + 1) (HISTORY_LIMIT - 1).
Proof.
  intros [Hb Hi]. unfold kept, HISTORY_LIMIT in *. case_bool_decide.
  - fold (shift (history s)). rewrite length_shift. lia.
  - rewrite length_take. lia.
Qed.

Lemma saveToHistory_history ns ls s :
  wf s →
  history (saveToHistory (historyIndex s) ns ls s) = recorded s (Snapshot.mk ns ls)
  ∧ historyIndex (saveToHistory (historyIndex s) ns ls s)
    = Z.min (historyIndex s + 1) (HISTORY_LIMIT - 1).
Proof.
  intros [Hb Hi]. unfold saveToHistory, recorded, kept, HISTORY_LIMIT, deepCopy in *.
  simpl. split; [|done]. f_equal.
  rewrite slice0_take by lia. rewrite length_take.
  case_bool_decide as Hc.
  - destruct (Z.leb_spec 20 (Z.of_nat (Z.to_nat (historyIndex s + 1) `min` length (history s)))); [|lia].
    unfold shift. f_equal. apply take_ge. lia.
  - destruct (Z.leb_spec 20 (Z.of_nat (Z.to_nat (historyIndex s + 1) `min` length (history s)))); [lia|done].
Qed.

Lemma recorded_length s e :
  wf s →
  Z.of_nat (length (recorded s e)) = Z.min (historyIndex s + 1) (HISTORY_LIMIT - 1) + 1.
Proof.
  intros Hwf. unfold recorded. rewrite length_app, <- (kept_length s Hwf). simpl. lia.
Qed.

(** The entries of the recorded history, counted back from the new one:
    the new entry, then the entries that were at and before the old index. *)
Lemma recorded_lookup_new s e :
  wf s → at_index (recorded s e) (Z.min (historyIndex s + 1) (HISTORY_LIMIT - 1)) = Some e.
Proof.
  intros Hwf. pose proof (kept_length s Hwf) as Hl.
  destruct Hwf as [Hb Hi]. unfold HISTORY_LIMIT in *.
  apply at_index_Some. split; [lia|].
  unfold recorded. rewrite lookup_app_r by lia.
  replace (_ - _)%nat with 0%nat by lia. done.
Qed.

Lemma recorded_lookup_old s e (j : Z) :
  wf s → 1 ≤ j ≤ Z.min (historyIndex s + 1) (HISTORY_LIMIT - 1) →
  at_index (recorded s e) (Z.min (historyIndex s + 1) (HISTORY_LIMIT - 1) - j)
  = at_index (history s) (historyIndex s - (j - 1)).
Proof.
  intros Hwf Hj. pose proof (kept_length s Hwf) as Hl.
  destruct Hwf as [Hb Hi]. unfold HISTORY_LIMIT in *.
  unfold at_index.
  destruct (Z.ltb_spec (Z.min (historyIndex s + 1) (20 - 1) - j) 0); [lia|].
  destruct (Z.ltb_spec (historyIndex s - (j - 1)) 0); [lia|].
  unfold recorded. rewrite lookup_app_l by lia.
  unfold kept, HISTORY_LIMIT. case_bool_decide as Hc.
  - rewrite lookup_tail. f_equal. lia.
  - rewrite lookup_take_lt by lia. f_equal. lia.
Qed.

Lemma saveToHistory_wf ns ls s :
  wf s → wf (saveToHistory (historyIndex s) ns ls s).
Proof.
  intros Hwf. destruct (saveToHistory_history ns ls s Hwf) as [Hh Hi].
  pose proof (recorded_length s (Snapshot.mk ns ls) Hwf) as Hl.
  unfold wf. rewrite Hh, Hi. destruct Hwf as [Hb Hx]. unfold HISTORY_LIMIT in *. lia.
Qed.

(** ** The recording effect and the render loop *)

Lemma differsFromCurrent_false s :
  differsFromCurrent s = false ↔ current s = Some (graph s).
Proof.
  unfold differsFromCurrent, current, graph.
  destruct (at_index (history s) (historyIndex s)) as [[ns ls]|]; simpl.
  - rewrite orb_false_iff, !negb_false_iff, !bool_decide_eq_true.
    split; [intros [-> ->]; done | intros [= -> ->]; done].
  - split; discriminate.
Qed.

Lemma nonEmpty_graph s :
  nonEmpty (nodes s) || nonEmpty (links s) = false ↔ graph s = Snapshot.mk [] [].
Proof.
  unfold graph. destruct (nodes s), (links s); simpl; split; intros H; congruence.
Qed.

(** The effect stands still when a replay is pending, on the empty graph
    and when the graph is the current entry. *)
Lemma recordEffect_quiet s :
  isUndoRedoAction s = true ∨ graph s = Snapshot.mk [] [] ∨ current s = Some (graph s) →
  recordEffect s s = (setIsUndoRedoAction false s, false).
Proof.
  intros H. unfold recordEffect.
  destruct (isUndoRedoAction s) eqn:Hf; simpl; [done|].
  destruct (nonEmpty (nodes s) || nonEmpty (links s)) eqn:Hn; [|done].
  destruct (differsFromCurrent s) eqn:Hd; [|done].
  destruct H as [H|[H|H]]; [done| |].
  - apply nonEmpty_graph in H. congruence.
  - apply differsFromCurrent_false in H. congruence.
Qed.

Lemma recordEffect_records s :
  isUndoRedoAction s = false → graph s ≠ Snapshot.mk [] [] → current s ≠ Some (graph s) →
  recordEffect s s
  = (setIsUndoRedoAction false (saveToHistory (historyIndex s) (nodes s) (links s) s), true).
Proof.
  intros Hf Hg Hc. unfold recordEffect. rewrite Hf. simpl.
  destruct (nonEmpty (nodes s) || nonEmpty (links s)) eqn:Hn.
  - destruct (differsFromCurrent s) eqn:Hd; [done|].
    apply differsFromCurrent_false in Hd. done.
  - apply nonEmpty_graph in Hn. done.
Qed.

Lemma rendered_cases s :
  (rendered s = setIsUndoRedoAction false s ∧ (recordEffect s s).2 = false
   ∧ (isUndoRedoAction s = true ∨ graph s = Snapshot.mk [] [] ∨ current s = Some (graph s)))
  ∨ (rendered s = setIsUndoRedoAction false
                    (saveToHistory (historyIndex s) (nodes s) (links s) s)
     ∧ (recordEffect s s).2 = true
     ∧ isUndoRedoAction s = false ∧ graph s ≠ Snapshot.mk [] []
     ∧ current s ≠ Some (graph s)).
Proof.
  unfold rendered.
  destruct (isUndoRedoAction s) eqn:Hf.
  { left. rewrite recordEffect_quiet by auto. auto. }
  destruct (decide (graph s = Snapshot.mk [] [])) as [Hg|Hg].
  { left. rewrite recordEffect_quiet by auto. auto. }
  destruct (decide (current s = Some (graph s))) as [Hc|Hc].
  { left. rewrite recordEffect_quiet by auto. auto. }
  right. rewrite recordEffect_records by auto. auto.
Qed.

Lemma rendered_graph s :
  nodes (rendered s) = nodes s ∧ links (rendered s) = links s.
Proof. destruct (rendered_cases s) as [(-> & _)|(-> & _)]; done. Qed.

Lemma rendered_flag s : isUndoRedoAction (rendered s) = false.
Proof. destruct (rendered_cases s) as [(-> & _)|(-> & _)]; done. Qed.

Lemma rendered_wf s : wf s → wf (rendered s).
Proof.
  intros Hwf. destruct (rendered_cases s) as [(-> & _)|(-> & _)]; [done|].
  apply (saveToHistory_wf (nodes s) (links s)) in Hwf. done.
Qed.

(** After the effect the current entry is the graph, unless the graph is
    empty or a replay was pending. *)
Lemma rendered_current s :
  wf s → isUndoRedoAction s = false → graph s ≠ Snapshot.mk [] [] →
  current (rendered s) = Some (graph s).
Proof.
  intros Hwf Hf Hg.
  destruct (rendered_cases s) as [(-> & _ & [H|[H|H]])|(-> & _)]; try congruence; try done.
  destruct (saveToHistory_history (nodes s) (links s) s Hwf) as [Hh Hi].
  unfold current. simpl. unfold current in *.
  change (at_index (history (saveToHistory (historyIndex s) (nodes s) (links s) s))
                   (historyIndex (saveToHistory (historyIndex s) (nodes s) (links s) s))
          = Some (graph s)).
  rewrite Hh, Hi. by apply recorded_lookup_new.
Qed.

(** From a well-formed history two passes are enough: the state recorded
    by the first is left alone by the second. *)
Lemma settle_wf s n : wf s → settle (S (S n)) s = Some (rendered s).
Proof.
  intros Hwf. unfold rendered. cbn [settle].
  destruct (rendered_cases s) as [(Hr & Hc & _)|(Hr & Hc & Hf & Hg & Hd)];
    unfold rendered in *; destruct (recordEffect s s) as [s' ch] eqn:He;
    simpl in *; subst ch; [done|].
  assert (Hq : recordEffect s' s' = (s', false)).
  { rewrite recordEffect_quiet.
    - by subst s'.
    - right. right.
      pose proof (rendered_current s Hwf Hf Hg) as Hcur.
      unfold rendered in Hcur. rewrite He in Hcur. simpl in Hcur.
      rewrite Hcur. subst s'. done. }
  by rewrite Hq.
Qed.

(** A state on which the effect stands still is left as it is. *)
Lemma settle_quiet s n :
  isUndoRedoAction s = false →
  graph s = Snapshot.mk [] [] ∨ current s = Some (graph s) →
  settle (S n) s = Some s.
Proof.
  intros Hf H. cbn [settle]. rewrite recordEffect_quiet by auto.
  destruct s. simpl in Hf. by subst.
Qed.

Lemma dispatch_wf h s : wf (h s) → dispatch h s = Some (rendered (h s)).
Proof. intros Hwf. unfold dispatch, PASSES. by apply settle_wf. Qed.

(** ** Undoing and redoing *)

Lemma wf_lookup s (i : Z) :
  wf s → 0 ≤ i ≤ Z.of_nat (length (history s)) - 1 →
  ∃ p, at_index (history s) i = Some p.
Proof.
  intros _ Hi. destruct (lookup_lt_is_Some_2 (history s) (Z.to_nat i)) as [p Hp]; [lia|].
  exists p. apply at_index_Some. split; [lia | done].
Qed.

Lemma dispatch_undo s :
  wf s → 0 < historyIndex s →
  ∃ s', dispatch undo s = Some s'
        ∧ at_index (history s) (historyIndex s - 1) = Some (graph s')
        ∧ history s' = history s ∧ historyIndex s' = historyIndex s - 1
        ∧ isUndoRedoAction s' = false.
Proof.
  intros Hwf Hi.
  destruct (wf_lookup s (historyIndex s - 1) Hwf) as [p Hp]; [destruct Hwf; lia|].
  assert (Hu : undo s = s |> setIsUndoRedoAction true
                          |> setNodes (Snapshot.nodes p) |> setLinks (Snapshot.links p)
                          |> setHistoryIndex (historyIndex s - 1)
                          |> setSelectedNodeId None |> setSelectedLinkIndex None).
  { unfold undo. destruct (Z.ltb_spec 0 (historyIndex s)); [|lia]. by rewrite Hp. }
  assert (Hwf' : wf (undo s)).
  { rewrite Hu. destruct Hwf as [Hb Hx]. unfold wf. simpl. lia. }
  exists (rendered (undo s)). split; [by apply dispatch_wf|].
  destruct (rendered_cases (undo s)) as [(-> & _)|(_ & _ & Hf & _)].
  - rewrite Hu. simpl. rewrite Hp. by destruct p.
  - rewrite Hu in Hf. done.
Qed.

Lemma dispatch_redo s :
  wf s → historyIndex s < Z.of_nat (length (history s)) - 1 →
  ∃ s', dispatch redo s = Some s'
        ∧ at_index (history s) (historyIndex s + 1) = Some (graph s')
        ∧ history s' = history s ∧ historyIndex s' = historyIndex s + 1
        ∧ isUndoRedoAction s' = false.
Proof.
  intros Hwf Hi.
  destruct (wf_lookup s (historyIndex s + 1) Hwf) as [p Hp]; [destruct Hwf; lia|].
  assert (Hu : redo s = s |> setIsUndoRedoAction true
                          |> setNodes (Snapshot.nodes p) |> setLinks (Snapshot.links p)
                          |> setHistoryIndex (historyIndex s + 1)
                          |> setSelectedNodeId None |> setSelectedLinkIndex None).
  { unfold redo. destruct (Z.ltb_spec (historyIndex s) (Z.of_nat (length (history s)) - 1)); [|lia].
    by rewrite Hp. }
  assert (Hwf' : wf (redo s)).
  { rewrite Hu. destruct Hwf as [Hb Hx]. unfold wf. simpl. lia. }
  exists (rendered (redo s)). split; [by apply dispatch_wf|].
  destruct (rendered_cases (redo s)) as [(-> & _)|(_ & _ & Hf & _)].
  - rewrite Hu. simpl. rewrite Hp. by destruct p.
  - rewrite Hu in Hf. done.
Qed.

(** [k] undos walk [k] entries down the history. *)
Lemma undos_spec k : ∀ s,
  consistent s → Z.of_nat k ≤ historyIndex s →
  ∃ s', repeatedly k undo s = Some s'
        ∧ at_index (history s) (historyIndex s - Z.of_nat k) = Some (graph s')
        ∧ history s' = history s ∧ historyIndex s' = historyIndex s - Z.of_nat k
        ∧ consistent s'.
Proof.
  induction k as [|k IH]; intros s Hc Hk.
  - exists s. destruct Hc as (Hwf & Hcur & Hf). unfold current in Hcur.
    simpl. rewrite Z.sub_0_r. done.
  - destruct Hc as (Hwf & Hcur & Hf).
    destruct (dispatch_undo s Hwf) as (s1 & Hd & Hg & Hh & Hi & Hf1); [lia|].
    assert (Hc1 : consistent s1).
    { split; [|split; [|done]].
      - destruct Hwf as [Hb Hx]. unfold wf. rewrite Hh, Hi. lia.
      - unfold current. by rewrite Hh, Hi. }
    destruct (IH s1 Hc1) as (s' & Hr & Hg' & Hh' & Hi' & Hc'); [lia|].
    exists s'. cbn [repeatedly]. rewrite Hd. split; [done|].
    rewrite Hh, Hi in Hg'. rewrite Hh in Hh'. rewrite Hi in Hi'.
    replace (historyIndex s - Z.of_nat (S k)) with (historyIndex s - 1 - Z.of_nat k) by lia.
    done.
Qed.

(** [k] redos walk [k] entries up again. *)
Lemma redos_spec k : ∀ s,
  consistent s → historyIndex s + Z.of_nat k ≤ Z.of_nat (length (history s)) - 1 →
  ∃ s', repeatedly k redo s = Some s'
        ∧ at_index (history s) (historyIndex s + Z.of_nat k) = Some (graph s')
        ∧ history s' = history s ∧ historyIndex s' = historyIndex s + Z.of_nat k
        ∧ consistent s'.
Proof.
  induction k as [|k IH]; intros s Hc Hk.
  - exists s. destruct Hc as (Hwf & Hcur & Hf). unfold current in Hcur.
    simpl. rewrite Z.add_0_r. done.
  - destruct Hc as (Hwf & Hcur & Hf).
    destruct (dispatch_redo s Hwf) as (s1 & Hd & Hg & Hh & Hi & Hf1); [lia|].
    assert (Hc1 : consistent s1).
    { split; [|split; [|done]].
      - destruct Hwf as [Hb Hx]. unfold wf. rewrite Hh, Hi. lia.
      - unfold current. by rewrite Hh, Hi. }
    destruct (IH s1 Hc1) as (s' & Hr & Hg' & Hh' & Hi' & Hc'); [rewrite Hh, Hi; lia|].
    exists s'. cbn [repeatedly]. rewrite Hd. split; [done|].
    rewrite Hh, Hi in Hg'. rewrite Hh in Hh'. rewrite Hi in Hi'.
    replace (historyIndex s + Z.of_nat (S k)) with (historyIndex s + 1 + Z.of_nat k) by lia.
    done.
Qed.

(** ** Recorded edits *)

Lemma dispatch_edit_records s g :
  wf s → isUndoRedoAction s = false →
  g ≠ Snapshot.mk [] [] → current s ≠ Some g →
  ∃ s', dispatch (edit g) s = Some s'
        ∧ graph s' = g ∧ isUndoRedoAction s' = false
        ∧ history s' = recorded s g
        ∧ historyIndex s' = Z.min (historyIndex s + 1) (HISTORY_LIMIT - 1).
Proof.
  intros Hwf Hf Hg Hc.
  assert (Hwe : wf (edit g s)) by done.
  exists (rendered (edit g s)). split; [by apply dispatch_wf|].
  assert (Hge : graph (edit g s) = g) by (by destruct g).
  destruct (rendered_cases (edit g s)) as [(_ & _ & [H|[H|H]])|(-> & _)].
  - unfold edit in H. simpl in H. congruence.
  - congruence.
  - rewrite Hge in H. done.
  - destruct (saveToHistory_history (nodes (edit g s)) (links (edit g s)) (edit g s) Hwe)
      as [Hh Hi].
    split; [done|]. split; [done|]. split.
    + change (history (saveToHistory (historyIndex (edit g s)) (nodes (edit g s))
                                     (links (edit g s)) (edit g s)) = recorded s g).
      rewrite Hh. by destruct g.
    + change (historyIndex (saveToHistory (historyIndex (edit g s)) (nodes (edit g s))
                                     (links (edit g s)) (edit g s)) = 
              Z.min (historyIndex s + 1) (HISTORY_LIMIT - 1)).
      rewrite Hi. done.
Qed.

Lemma dispatch_edit_quiet s g :
  wf s → isUndoRedoAction s = false →
  g = Snapshot.mk [] [] ∨ current s = Some g →
  ∃ s', dispatch (edit g) s = Some s'
        ∧ graph s' = g ∧ isUndoRedoAction s' = false
        ∧ history s' = history s ∧ historyIndex s' = historyIndex s.
Proof.
  intros Hwf Hf Hc.
  assert (Hwe : wf (edit g s)) by done.
  exists (rendered (edit g s)). split; [by apply dispatch_wf|].
  assert (Hge : graph (edit g s) = g) by (by destruct g).
  destruct (rendered_cases (edit g s)) as [(-> & _)|(_ & _ & _ & H1 & H2)]; [done|].
  rewrite Hge in *. destruct Hc; done.
Qed.

Lemma recorded_consistent s s' g :
  wf s → graph s' = g → isUndoRedoAction s' = false →
  history s' = recorded s g →
  historyIndex s' = Z.min (historyIndex s + 1) (HISTORY_LIMIT - 1) →
  consistent s'.
Proof.
  intros Hwf Hg Hf Hh Hi. pose proof (recorded_length s g Hwf) as Hl.
  split; [|split; [|done]].
  - destruct Hwf as [Hb Hx]. unfold wf. rewrite Hh, Hi. unfold HISTORY_LIMIT in *. lia.
  - unfold current. rewrite Hh, Hi, Hg. by apply recorded_lookup_new.
Qed.

Lemma edit_step s g past :
  consistent s → recordable (graph s) g → recent s past →
  ∃ s', dispatch (edit g) s = Some s' ∧ consistent s' ∧ graph s' = g
        ∧ recent s' (g :: past).
Proof.
  intros (Hwf & Hcur & Hf) [Hne Hd] Hrec.
  destruct (dispatch_edit_records s g Hwf Hf Hne) as (s' & Hdis & Hg & Hf' & Hh & Hi).
  { rewrite Hcur. congruence. }
  exists s'. split; [done|]. split; [by eapply recorded_consistent|]. split; [done|].
  intros j Hj H19. rewrite Hh, Hi. destruct j as [|j].
  - rewrite Z.sub_0_r. simpl. by apply recorded_lookup_new.
  - simpl in Hj. assert (Hj' : (j < length past)%nat) by lia.
    pose proof (Hrec j Hj' ltac:(lia)) as Hold.
    destruct (lookup_lt_is_Some_2 past j Hj') as [p Hp].
    rewrite Hp in Hold. apply at_index_Some in Hold as [Hpos _].
    rewrite recorded_lookup_old; [|done|unfold HISTORY_LIMIT; lia].
    simpl. rewrite <- (Hrec j Hj' ltac:(lia)). f_equal. lia.
Qed.

Lemma edits_spec gs : ∀ s past,
  consistent s → recordableSeq (graph s) gs → recent s past →
  ∃ s', edits gs s = Some s' ∧ consistent s' ∧ recent s' (rev gs ++ past).
Proof.
  induction gs as [|g gs IH]; intros s past Hc Hseq Hrec.
  - exists s. done.
  - destruct Hseq as [Hg Hseq].
    destruct (edit_step s g past Hc Hg Hrec) as (s1 & Hd & Hc1 & Hg1 & Hr1).
    rewrite <- Hg1 in Hseq.
    destruct (IH s1 (g :: past) Hc1 Hseq Hr1) as (s' & He & Hc' & Hr').
    exists s'. cbn [edits]. rewrite Hd. split; [done|]. split; [done|].
    simpl. by rewrite <- app_assoc.
Qed.

(** ** Every handler keeps the history well formed *)

Lemma undo_wf s : wf s → wf (undo s).
Proof.
  intros [Hb Hi]. unfold undo.
  destruct (Z.ltb_spec 0 (historyIndex s)); [|done].
  destruct (at_index _ _); unfold wf; simpl; lia.
Qed.

Lemma redo_wf s : wf s → wf (redo s).
Proof.
  intros [Hb Hi]. unfold redo.
  destruct (Z.ltb_spec (historyIndex s) (Z.of_nat (length (history s)) - 1)); [|done].
  destruct (at_index _ _); unfold wf; simpl; lia.
Qed.

Lemma loadModel_wf m c s : wf s → wf (loadModel m c s).
Proof. intros H. destruct c; [|done]. unfold wf, HISTORY_LIMIT. simpl. lia. Qed.

Lemma createNewModel_wf c s : wf s → wf (createNewModel c s).
Proof. intros H. destruct c; [|done]. unfold wf, HISTORY_LIMIT. simpl. lia. Qed.

Lemma autoLayout_wf s : wf s → wf (autoLayout s).
Proof.
  intros H. unfold autoLayout.
  destruct (_ && _); [done|].
  apply (saveToHistory_wf _ _ (setNodes (layout (nodes s) (links s)) s)). done.
Qed.

Lemma handleNodeClick_wf i s : wf s → wf (handleNodeClick i s).
Proof.
  intros H. unfold handleNodeClick.
  destruct (interactionMode s); [done|].
  destruct (linkingSourceId s); [|done].
  case_bool_decide; [done|]. simpl. destruct (negb _); done.
Qed.

Lemma handleDeleteSelected_wf c s : wf s → wf (handleDeleteSelected c s).
Proof.
  intros H. unfold handleDeleteSelected.
  destruct (selectedNodeId s); [destruct (truthy _)|];
    destruct c; try done; destruct (selectedLinkIndex s); done.
Qed.

Lemma handleDragEnd_wf n px py s : wf s → wf (handleDragEnd n px py s).
Proof. intros H. unfold handleDragEnd. destruct (interactionMode s); done. Qed.

Lemma addNode_wf now rx ry s : wf s → wf (addNode now rx ry s).
Proof. intros H. unfold addNode. destruct (isBlank _); done. Qed.

Create HintDb handlers.
#[local] Hint Resolve undo_wf redo_wf loadModel_wf createNewModel_wf autoLayout_wf
  handleNodeClick_wf handleDeleteSelected_wf handleDragEnd_wf addNode_wf : handlers.

Lemma handler_wf e s : wf s → wf (handler e s).
Proof.
  intros H. destruct e; simpl;
    try (change (wf (handleCanvasClick ?x)) with (wf x));
    auto with handlers.
Qed.

Lemma step_wf e s :
  wf s → ∃ s', step e s = Some s' ∧ wf s' ∧ isUndoRedoAction s' = false.
Proof.
  intros H. apply (handler_wf e) in H. exists (rendered (handler e s)).
  split; [by apply dispatch_wf|]. split; [by apply rendered_wf | apply rendered_flag].
Qed.

Lemma run_wf es : ∀ s,
  wf s → ∃ s', run es s = Some s' ∧ wf s'.
Proof.
  induction es as [|e es IH]; intros s H.
  - by exists s.
  - destruct (step_wf e s H) as (s1 & Hs & Hwf & _).
    destruct (IH s1 Hwf) as (s' & Hr & Hwf').
    exists s'. cbn [run]. by rewrite Hs.
Qed.

(** In a run of edits the index stays on the last entry. *)
Lemma edits_top gs : ∀ s,
  wf s → isUndoRedoAction s = false →
  historyIndex s = Z.of_nat (length (history s)) - 1 →
  ∃ s', edits gs s = Some s' ∧ wf s' ∧ isUndoRedoAction s' = false
        ∧ historyIndex s' = Z.of_nat (length (history s')) - 1.
Proof.
  induction gs as [|g gs IH]; intros s Hwf Hf Htop.
  - by exists s.
  - assert (Hw : wf (edit g s)) by done.
    destruct (IH (rendered (edit g s))) as (s' & He & Hr).
    + by apply rendered_wf.
    + apply rendered_flag.
    + destruct (rendered_cases (edit g s)) as [(-> & _)|(-> & _)]; [done|].
      destruct (saveToHistory_history (nodes (edit g s)) (links (edit g s)) (edit g s) Hw)
        as [Hh Hi].
      change (historyIndex (saveToHistory (historyIndex (edit g s)) (nodes (edit g s))
                              (links (edit g s)) (edit g s))
              = Z.of_nat (length (history (saveToHistory (historyIndex (edit g s))
                              (nodes (edit g s)) (links (edit g s)) (edit g s)))) - 1).
      rewrite Hh, Hi, recorded_length by done. lia.
    + exists s'. cbn [edits]. by rewrite (dispatch_wf (edit g) s Hw).
Qed.

(** ** The history: claims C3, C5, C8, C10 and C1 *)

(** Claim C3.  From a well-formed history every sequence of events leaves
    at most 20 entries.  In a run of edits that starts with the index on
    the last entry (as it is after mounting) there are never more than 20
    entries, and an edit recorded when there are 20 drops the first entry
    and appends the new graph. *)
Theorem history_bounded_oldest_evicted :
  (∀ (es : list Event) (s : State),
      wf s →
      ∃ s', run es s = Some s' ∧ (length (history s') ≤ 20)%nat)
  ∧ (∀ (gs : list Snapshot.t) (s : State),
      wf s → isUndoRedoAction s = false →
      historyIndex s = Z.of_nat (length (history s)) - 1 →
      ∃ s1, edits gs s = Some s1
            ∧ (length (history s1) ≤ 20)%nat
            ∧ ∀ g : Snapshot.t,
                g ≠ Snapshot.mk [] [] → current s1 ≠ Some g →
                length (history s1) = 20%nat →
                ∃ s2, dispatch (edit g) s1 = Some s2
                      ∧ history s2 = tail (history s1) ++ [g]
                      ∧ length (history s2) = 20%nat).
Proof.
  split.
  - intros es s H. destruct (run_wf es s H) as (s' & Hr & [Hb _]).
    exists s'. split; [done|]. unfold HISTORY_LIMIT in Hb. lia.
  - intros gs s Hwf Hf Htop.
    destruct (edits_top gs s Hwf Hf Htop) as (s1 & He & Hwf1 & Hf1 & Htop1).
    exists s1. split; [done|].
    split; [destruct Hwf1 as [Hb _]; unfold HISTORY_LIMIT in Hb; lia|].
    intros g Hg Hc Hfull.
    destruct (dispatch_edit_records s1 g Hwf1 Hf1 Hg Hc) as (s2 & Hd & _ & _ & Hh & Hi).
    exists s2. split; [done|]. rewrite Hh.
    pose proof (recorded_length s1 g Hwf1) as Hl.
    unfold recorded, kept, HISTORY_LIMIT in *.
    rewrite bool_decide_true in * by lia. split; [done|]. lia.
Qed.

Lemma history_bounded_oldest_evicted_witness :
  ∃ s', dispatch (edit gB) fullState = Some s'
        ∧ history s' = replicate 18 gB ++ [gA; gB].
Proof.
  destruct history_bounded_oldest_evicted as (_ & H).
  destruct (H [] fullState) as (s1 & He & _ & Hev).
  - unfold wf, HISTORY_LIMIT. simpl. lia.
  - reflexivity.
  - reflexivity.
  - simpl in He. injection He as <-.
    destruct (Hev gB) as (s2 & Hd & Hh & _).
    + intros [=].
    + vm_compute. intros [=].
    + reflexivity.
    + exists s2. split; [exact Hd|]. rewrite Hh. reflexivity.
Defined.

(** The comparison made by the recording effect.  When the graph offered
    to it is the snapshot at the current history index, the effect stores
    nothing and causes no further render.  Consequently, when the same
    graph is set twice in a row, the second time leaves the history and
    the index that the first time produced: if the graph was new, the
    entries kept followed by that one graph. *)
Lemma recordEffect_deduplicates :
  (∀ s : State,
      current s = Some (graph s) →
      recordEffect s s = (setIsUndoRedoAction false s, false))
  ∧ (∀ (s : State) (g : Snapshot.t),
      wf s → isUndoRedoAction s = false →
      ∃ s1 s2, dispatch (edit g) s = Some s1
               ∧ dispatch (edit g) s1 = Some s2
               ∧ history s2 = history s1 ∧ historyIndex s2 = historyIndex s1
               ∧ (g ≠ Snapshot.mk [] [] → current s ≠ Some g →
                  history s2 = kept s ++ [g])).
Proof.
  split.
  - intros s H. apply recordEffect_quiet. auto.
  - intros s g Hwf Hf.
    assert (Hw : wf (edit g s)) by done.
    pose proof (rendered_wf _ Hw) as Hw1.
    exists (rendered (edit g s)). 
    assert (Hg : graph (edit g s) = g) by (by destruct g).
    assert (Hg1 : graph (rendered (edit g s)) = g).
    { destruct (rendered_graph (edit g s)) as [Hn Hl]. unfold graph. rewrite Hn, Hl. done. }
    destruct (dispatch_edit_quiet (rendered (edit g s)) g Hw1 (rendered_flag _))
      as (s2 & Hd2 & _ & _ & Hh & Hi).
    { destruct (decide (g = Snapshot.mk [] [])) as [|Hne]; [by left|right].
      rewrite <- Hg at 2. apply rendered_current; [done|done|by rewrite Hg]. }
    exists s2. split; [by apply dispatch_wf|].
    split; [done|]. split; [done|]. split; [done|].
    intros Hne Hc. rewrite Hh.
    destruct (dispatch_edit_records s g Hwf Hf Hne Hc) as (s1 & Hd1 & _ & _ & Hh1 & _).
    rewrite (dispatch_wf (edit g) s Hw) in Hd1. injection Hd1 as ->. exact Hh1.
Qed.

(** [autoLayout] records without comparing: whenever there are nodes, the
    laid out graph is appended to the entries kept. *)
Lemma autoLayout_history s :
  wf s → nodes s ≠ [] →
  history (autoLayout s)
  = kept s ++ [Snapshot.mk (layout (nodes s) (links s)) (links s)].
Proof.
  intros Hwf Hne. unfold autoLayout. rewrite map_cloneNode.
  destruct (Nat.eqb (length (refsWhere isLatent (nodes s))) 0
            && Nat.eqb (length (refsWhere isObserved (nodes s))) 0) eqn:He.
  - apply andb_true_iff in He as [H1 H2]. apply Nat.eqb_eq in H1, H2.
    destruct (nodes s) as [|n ns]; [done|]. exfalso.
    unfold refsWhere in H1, H2. simpl in H1, H2.
    unfold isLatent in H1. unfold isObserved in H2.
    destruct (Node.type n); simpl in *; discriminate.
  - apply (saveToHistory_history _ _ (setNodes (layout (nodes s) (links s)) s)). done.
Qed.

(** Claim C5 does not hold for [autoLayout].  A model whose one node is
    already where the layout puts it is loaded: the history holds that
    graph and the index is on it.  Running the layout offers the same
    graph, and a second, identical entry is appended. *)
Theorem autoLayout_records_unchanged_graph :
  ∃ s s',
    run [EvLoadModel laidOutModel true] (initialState [] []) = Some s
    ∧ current s = Some (graph s)
    ∧ history s = [graph s]
    ∧ step EvAutoLayout s = Some s'
    ∧ graph s' = graph s
    ∧ history s' = [graph s; graph s]
    ∧ historyIndex s' = 1.
Proof.
  eexists _, _. split; [vm_compute; reflexivity|].
  split; [reflexivity|]. split; [reflexivity|].
  split; [vm_compute; reflexivity|].
  split; [reflexivity|]. split; reflexivity.
Qed.

(** Claim C8.  After a confirmed [loadModel] (respectively
    [createNewModel]), from any state, the history is the single entry
    holding the loaded (respectively empty) graph, the index is 0, the
    live graph is that graph, and undo changes nothing. *)
Theorem load_and_new_reset_history (s : State) (model : SavedModel.t) :
  (∃ s', dispatch (loadModel model true) s = Some s'
         ∧ history s' = [Snapshot.mk (SavedModel.nodes model) (SavedModel.links model)]
         ∧ historyIndex s' = 0
         ∧ nodes s' = SavedModel.nodes model ∧ links s' = SavedModel.links model
         ∧ dispatch undo s' = Some s')
  ∧ (∃ s', dispatch (createNewModel true) s = Some s'
         ∧ history s' = [Snapshot.mk [] []]
         ∧ historyIndex s' = 0
         ∧ nodes s' = [] ∧ links s' = []
         ∧ dispatch undo s' = Some s').
Proof.
  assert (Hgen : ∀ ns ls s0,
             history s0 = [Snapshot.mk ns ls] → historyIndex s0 = 0 →
             nodes s0 = ns → links s0 = ls →
             ∃ s', settle PASSES s0 = Some s'
                   ∧ history s' = [Snapshot.mk ns ls] ∧ historyIndex s' = 0
                   ∧ nodes s' = ns ∧ links s' = ls
                   ∧ dispatch undo s' = Some s').
  { intros ns ls s0 Hh Hi Hn Hl.
    assert (Hcur : current s0 = Some (graph s0)).
    { unfold current, graph. rewrite Hh, Hi, Hn, Hl. done. }
    assert (Hq : recordEffect s0 s0 = (setIsUndoRedoAction false s0, false)).
    { apply recordEffect_quiet. auto. }
    exists (setIsUndoRedoAction false s0).
    split; [unfold PASSES; cbn [settle]; by rewrite Hq|].
    repeat (split; [done|]).
    unfold dispatch, PASSES. 
    assert (Hu : undo (setIsUndoRedoAction false s0) = setIsUndoRedoAction false s0).
    { unfold undo. simpl. by rewrite Hi. }
    rewrite Hu. cbn [settle]. rewrite recordEffect_quiet; [done|].
    right. right. done. }
  split.
  - apply (Hgen _ _ (loadModel model true s)); done.
  - apply (Hgen _ _ (createNewModel true s)); done.
Qed.

(** Claim C10 does not hold at mounting.  With a non-empty node array both
    mount effects call [saveToHistory] against the first render: the
    history updaters leave one entry while the index updaters count twice,
    so the index is 1 with a single entry in the history.  (Lemma
    [history_operations_in_bounds] gives the bound for each operation run
    on its own, [mount_fills_history] what the render loop then makes of
    this state.) *)
Theorem mount_index_past_end (n : Node.t) (ns : list Node.t) (ls : list Link.t) :
  let s := (mountEffects (initialState (n :: ns) ls)).1 in
  history s = [Snapshot.mk (n :: ns) ls] ∧ historyIndex s = 1 ∧ ¬ inBounds s.
Proof.
  simpl. split; [done|]. split; [done|]. unfold inBounds. simpl. unfold HISTORY_LIMIT. lia.
Qed.

Lemma history_operations_in_bounds (s : State) :
  wf s →
  (∀ ns ls, inBounds (saveToHistory (historyIndex s) ns ls s))
  ∧ (inBounds s → inBounds (undo s))
  ∧ (inBounds s → inBounds (redo s))
  ∧ (∀ m, inBounds (loadModel m true s))
  ∧ inBounds (createNewModel true s).
Proof.
  intros Hwf. split; [|split; [|split; [|split]]].
  - intros ns ls. destruct (saveToHistory_history ns ls s Hwf) as [Hh Hi].
    pose proof (recorded_length s (Snapshot.mk ns ls) Hwf) as Hl.
    unfold inBounds. rewrite Hh, Hi. destruct Hwf. unfold HISTORY_LIMIT in *. lia.
  - intros Hb. unfold undo. destruct (Z.ltb_spec 0 (historyIndex s)); [|done].
    destruct (at_index _ _); unfold inBounds in *; simpl; lia.
  - intros Hb. unfold redo.
    destruct (Z.ltb_spec (historyIndex s) (Z.of_nat (length (history s)) - 1)); [|done].
    destruct (at_index _ _); unfold inBounds in *; simpl; lia.
  - intros m. unfold inBounds. simpl. lia.
  - unfold inBounds. simpl. lia.
Qed.

Lemma round_trip_from_recorded (s : State) (gs : list Snapshot.t) (k : nat) :
  consistent s → recordableSeq (graph s) gs →
  (k ≤ length gs)%nat → (k ≤ 19)%nat →
  ∃ s1 s2 s3,
    edits gs s = Some s1
    ∧ (rev gs ++ [graph s]) !! 0%nat = Some (graph s1)
    ∧ repeatedly k undo s1 = Some s2
    ∧ (rev gs ++ [graph s]) !! k = Some (graph s2)
    ∧ repeatedly k redo s2 = Some s3
    ∧ graph s3 = graph s1
    ∧ history s3 = history s1 ∧ historyIndex s3 = historyIndex s1.
Proof.
  intros Hc Hseq Hk H19.
  assert (Hr0 : recent s [graph s]).
  { intros j Hj _. simpl in Hj. assert (j = 0%nat) as -> by lia.
    rewrite Z.sub_0_r. apply Hc. }
  destruct (edits_spec gs s [graph s] Hc Hseq Hr0) as (s1 & He & Hc1 & Hr1).
  assert (Hlen : length (rev gs ++ [graph s]) = S (length gs)).
  { rewrite length_app, length_rev. simpl. lia. }
  pose proof (Hr1 0%nat ltac:(lia) ltac:(lia)) as H0.
  pose proof (Hr1 k ltac:(lia) H19) as Hk1.
  destruct (lookup_lt_is_Some_2 (rev gs ++ [graph s]) k ltac:(lia)) as [p Hp].
  assert (Hik : Z.of_nat k ≤ historyIndex s1).
  { rewrite Hp in Hk1. apply at_index_Some in Hk1. lia. }
  destruct (undos_spec k s1 Hc1 Hik) as (s2 & Hu & Hg2 & Hh2 & Hi2 & Hc2).
  destruct (redos_spec k s2 Hc2) as (s3 & Hre & Hg3 & Hh3 & Hi3 & Hc3).
  { rewrite Hh2, Hi2. destruct Hc1 as ((_ & ?) & _). lia. }
  exists s1, s2, s3. split; [done|].
  destruct Hc1 as (Hwf1 & Hcur1 & Hf1). unfold current in Hcur1.
  split. { rewrite <- H0, Z.sub_0_r. done. }
  split; [done|]. split. { rewrite <- Hk1. done. }
  split; [done|].
  rewrite Hh2, Hi2 in Hg3. rewrite Hh2 in Hh3. rewrite Hi2 in Hi3.
  replace (historyIndex s1 - Z.of_nat k + Z.of_nat k) with (historyIndex s1) in * by lia.
  split; [congruence|done].
Qed.

(** The empty graph is not recorded: an edit of an empty canvas is
    recorded after the entry at the index, and that entry is what undo
    then shows. *)
Lemma round_trip_from_empty (s : State) (g : Snapshot.t) :
  wf s → isUndoRedoAction s = false → inBounds s →
  graph s = Snapshot.mk [] [] →
  g ≠ Snapshot.mk [] [] → current s ≠ Some g →
  ∃ s1 s2 s3,
    edits [g] s = Some s1 ∧ graph s1 = g
    ∧ repeatedly 1 undo s1 = Some s2 ∧ current s = Some (graph s2)
    ∧ repeatedly 1 redo s2 = Some s3 ∧ graph s3 = g.
Proof.
  intros Hwf Hf Hin He Hne Hcur.
  destruct (dispatch_edit_records s g Hwf Hf Hne Hcur) as (s1 & H1 & Hg1 & Hf1 & Hh1 & Hi1).
  pose proof (recorded_consistent s s1 g Hwf Hg1 Hf1 Hh1 Hi1) as Hc1.
  pose proof (recorded_length s g Hwf) as Hlen. rewrite <- Hh1 in Hlen.
  unfold inBounds in Hin.
  destruct (undos_spec 1 s1 Hc1) as (s2 & Hu & Hg2 & Hh2 & Hi2 & Hc2).
  { rewrite Hi1. unfold HISTORY_LIMIT. lia. }
  destruct (redos_spec 1 s2 Hc2) as (s3 & Hr & Hg3 & _).
  { rewrite Hh2, Hi2. lia. }
  exists s1, s2, s3.
  split; [cbn [edits]; by rewrite H1|]. split; [done|].
  split; [done|]. split.
  { rewrite <- Hg2, Hh1, Hi1. change (Z.of_nat 1) with 1.
    rewrite (recorded_lookup_old s g 1 Hwf) by (unfold HISTORY_LIMIT; lia).
    unfold current. f_equal. lia. }
  split; [done|].
  rewrite Hh2, Hi2 in Hg3.
  replace (historyIndex s1 - Z.of_nat 1 + Z.of_nat 1) with (historyIndex s1) in Hg3 by lia.
  destruct Hc1 as (_ & Hcur1 & _). unfold current in Hcur1. congruence.
Qed.

(** Claim C1, as amended.  Take a state whose live graph is the entry at
    the current history index and apply any run [gs] of recorded edits.
    Then [k] undos, for any [k] up to the number of edits and up to
    19 = [HISTORY_LIMIT - 1], show exactly the graph that was current [k]
    edits earlier, and [k] redos bring back the graph after the last edit
    with the history and the index as they were.  With one edit and
    [k = 1]: undo restores the pair present before the edit and redo the
    pair after it.

    The other case is a state whose live graph is empty while the index
    designates an entry (the empty graph is never recorded).  There one
    recorded edit followed by undo shows the entry that was at the index
    before the edit, not the empty graph, and redo brings back the graph
    after the edit. *)
Theorem undo_redo_round_trip :
  (∀ (s : State) (gs : list Snapshot.t) (k : nat),
      consistent s → recordableSeq (graph s) gs →
      (k ≤ length gs)%nat → (k ≤ 19)%nat →
      ∃ s1 s2 s3,
        edits gs s = Some s1
        ∧ (rev gs ++ [graph s]) !! 0%nat = Some (graph s1)
        ∧ repeatedly k undo s1 = Some s2
        ∧ (rev gs ++ [graph s]) !! k = Some (graph s2)
        ∧ repeatedly k redo s2 = Some s3
        ∧ graph s3 = graph s1
        ∧ history s3 = history s1 ∧ historyIndex s3 = historyIndex s1)
  ∧ (∀ (s : State) (g : Snapshot.t),
      wf s → isUndoRedoAction s = false → inBounds s →
      graph s = Snapshot.mk [] [] →
      g ≠ Snapshot.mk [] [] → current s ≠ Some g →
      ∃ s1 s2 s3,
        edits [g] s = Some s1 ∧ graph s1 = g
        ∧ repeatedly 1 undo s1 = Some s2 ∧ current s = Some (graph s2)
        ∧ repeatedly 1 redo s2 = Some s3 ∧ graph s3 = g).
Proof.
  split.
  - apply round_trip_from_recorded.
  - apply round_trip_from_empty.
Qed.

Lemma undo_redo_round_trip_witness :
  (∃ s1 s2 s3,
    edits [gB] (mkState [nA] [] "" latent move directed None None None [gA] 0 false) = Some s1
    ∧ graph s1 = gB
    ∧ repeatedly 1 undo s1 = Some s2 ∧ graph s2 = gA
    ∧ repeatedly 1 redo s2 = Some s3 ∧ graph s3 = gB)
  ∧ (∃ s1 s2 s3,
    edits [gB] (mkState [] [] "" latent move directed None None None [gA] 0 false) = Some s1
    ∧ graph s1 = gB
    ∧ repeatedly 1 undo s1 = Some s2 ∧ Some gA = Some (graph s2)
    ∧ repeatedly 1 redo s2 = Some s3 ∧ graph s3 = gB).
Proof.
  destruct undo_redo_round_trip as [HA HB]. split.
  - destruct (HA (mkState [nA] [] "" latent move directed None None None [gA] 0 false)
                 [gB] 1%nat) as (s1 & s2 & s3 & H1 & H2 & H3 & H4 & H5 & H6 & _).
    + split; [|done]. unfold wf, HISTORY_LIMIT. simpl. lia.
    + simpl. split; [|done]. split; intros [=].
    + simpl; lia.
    + lia.
    + exists s1, s2, s3.
      change (Some gB = Some (graph s1)) in H2.
      change (Some gA = Some (graph s2)) in H4.
      repeat split; congruence.
  - apply (HB (mkState [] [] "" latent move directed None None None [gA] 0 false) gB).
    + unfold wf, HISTORY_LIMIT. simpl. lia.
    + reflexivity.
    + unfold inBounds. simpl. lia.
    + reflexivity.
    + intros [=].
    + intros [=].
Defined.

(** Claim C1 fails as it is stated.  Deleting the last node leaves an
    empty graph, which [recordEffect] does not store; after the next
    recorded edit (a node is added) undo shows the last stored graph and
    not the empty graph that was current just before that edit. *)
Lemma undo_after_emptied_canvas :
  ¬ (∀ (es : list Event) (e : Event) (s s1 s2 : State),
        run es (initialState [] []) = Some s →
        history s ≠ [] →
        step e s = Some s1 →
        history s1 ≠ history s →
        step EvUndo s1 = Some s2 →
        graph s2 = graph s).
Proof.
  intros H.
  destruct (run emptied (initialState [] [])) as [s|] eqn:Hs; [|by vm_compute in Hs].
  destruct (step (EvAddNode "3" 0 0) s) as [s1|] eqn:Hs1;
    [|vm_compute in Hs; injection Hs as <-; by vm_compute in Hs1].
  destruct (step EvUndo s1) as [s2|] eqn:Hs2;
    [|vm_compute in Hs; injection Hs as <-; vm_compute in Hs1; injection Hs1 as <-;
      by vm_compute in Hs2].
  specialize (H emptied (EvAddNode "3" 0 0) s s1 s2 Hs).
  vm_compute in Hs. injection Hs as <-.
  vm_compute in Hs1. injection Hs1 as <-.
  vm_compute in Hs2. injection Hs2 as <-.
  specialize (H ltac:(discriminate) eq_refl ltac:(discriminate) eq_refl).
  discriminate H.
Qed.

(** ** Mounting *)

Lemma slice0_all {A} (a : list A) (e : Z) :
  Z.of_nat (length a) ≤ e → slice0 e a = a.
Proof.
  intros He. unfold slice0. destruct (Z.ltb_spec e 0); [lia|].
  apply take_ge. lia.
Qed.

(** A pass over a history of [k] copies of the graph whose index points
    one past its end: nothing is found at the index, a copy is appended. *)
Lemma out_of_range_pass (e : Snapshot.t) (k : nat) (s : State) :
  graph s = e → e ≠ Snapshot.mk [] [] → isUndoRedoAction s = false →
  history s = replicate k e → historyIndex s = Z.of_nat k → (1 ≤ k ≤ 19)%nat →
  recordEffect s s = (rendered s, true)
  ∧ graph (rendered s) = e ∧ isUndoRedoAction (rendered s) = false
  ∧ history (rendered s) = replicate (S k) e
  ∧ historyIndex (rendered s) = Z.min (Z.of_nat (S k)) 19.
Proof.
  intros Hg Hne Hf Hh Hi Hk.
  assert (Hc : current s = None).
  { unfold current. rewrite Hh, Hi, at_index_nat. apply lookup_ge_None.
    rewrite length_replicate. lia. }
  destruct (rendered_cases s) as [(_ & _ & [H|[H|H]])|(Hr & Hch & _)];
    [congruence|congruence|congruence|].
  split; [unfold rendered in *; destruct (recordEffect s s); simpl in *; congruence|].
  rewrite Hr. split; [done|]. split; [done|].
  unfold saveToHistory, HISTORY_LIMIT, deepCopy. simpl. rewrite Hh, Hi.
  rewrite slice0_all by (rewrite length_replicate; lia).
  rewrite length_replicate.
  destruct (Z.leb_spec 20 (Z.of_nat k)); [lia|].
  split; [|lia].
  unfold graph in Hg. rewrite Hg. symmetry. apply replicate_cons_app.
Qed.

Lemma settle_fills (e : Snapshot.t) : ∀ (m k : nat) (s : State),
  (k + m = 20)%nat → (1 ≤ k)%nat →
  graph s = e → e ≠ Snapshot.mk [] [] → isUndoRedoAction s = false →
  history s = replicate k e → historyIndex s = Z.min (Z.of_nat k) 19 →
  ∀ extra, ∃ s', settle (S m + extra) s = Some s'
                 ∧ graph s' = e
                 ∧ history s' = replicate 20 e ∧ historyIndex s' = 19.
Proof.
  induction m as [|m IH]; intros k s Hkm Hk Hg Hne Hf Hh Hi extra.
  - assert (k = 20%nat) as -> by lia.
    exists (setIsUndoRedoAction false s). cbn [settle Nat.add].
    rewrite recordEffect_quiet.
    + split; [done|]. split; [done|]. split; [done|]. simpl. lia.
    + right. right. unfold current. rewrite Hh, Hi. rewrite Hg. done.
  - destruct (out_of_range_pass e k s Hg Hne Hf Hh) as (Hp & Hg' & Hf' & Hh' & Hi');
      [lia|lia|].
    destruct (IH (S k) (rendered s)) with (extra := extra) as (s' & Hs & Hr); try done; [lia|lia|].
    exists s'. split; [|done].
    change (S (S m) + extra)%nat with (S (S m + extra)). cbn [settle].
    by rewrite Hp.
Qed.

Lemma mountEffects_nonempty (n : Node.t) (ns : list Node.t) (ls : list Link.t) :
  mountEffects (initialState (n :: ns) ls)
  = (mkState (n :: ns) ls "" latent move directed None None None
             [Snapshot.mk (n :: ns) ls] 1 false, true).
Proof. reflexivity. Qed.

(** Mounted with a non-empty node array the component ends up with a
    history of [HISTORY_LIMIT] copies of the initial graph. *)
Lemma mount_fills_history (n : Node.t) (ns : list Node.t) (ls : list Link.t) :
  ∃ s, mount (n :: ns) ls = Some s
       ∧ graph s = Snapshot.mk (n :: ns) ls
       ∧ history s = replicate 20 (Snapshot.mk (n :: ns) ls)
       ∧ historyIndex s = 19.
Proof.
  unfold mount. rewrite mountEffects_nonempty.
  change PASSES with (S 19 + 1)%nat.
  apply (settle_fills (Snapshot.mk (n :: ns) ls) 19 1); done.
Qed.

(** ** Link gestures *)

Lemma linkExists_true ls src tgt ty :
  linkExists ls src tgt ty = true ↔ rejected ls src tgt ty.
Proof.
  unfold linkExists, rejected. rewrite existsb_exists. split.
  - intros (l & Hin & H). exists l. split; [by apply list_elem_of_In|].
    apply orb_true_iff in H as [H|H].
    + apply andb_true_iff in H as [H1 H2]. left.
      by rewrite !bool_decide_eq_true in *.
    + apply andb_true_iff in H as [H H3]. apply andb_true_iff in H as [H1 H2].
      right. by rewrite !bool_decide_eq_true in *.
  - intros (l & Hin & H). exists l. split; [by apply list_elem_of_In|].
    destruct H as [[H1 H2]|(H1 & H2 & H3)].
    + rewrite !bool_decide_true by done. done.
    + rewrite (bool_decide_true (ty = covariance)) by done.
      rewrite (bool_decide_true (Link.source l = tgt)) by done.
      rewrite (bool_decide_true (Link.target l = src)) by done.
      simpl. apply orb_true_r.
Qed.

Lemma addLink_no_duplicates ls src tgt ty :
  NoDuplicateLinks ls → NoDuplicateLinks (addLink ls src tgt ty).
Proof.
  intros Hinv. unfold addLink. case_bool_decide; [done|].
  destruct (linkExists ls src tgt ty) eqn:He; [done|].
  assert (Hfresh : ¬ rejected ls src tgt ty).
  { intros Hr. apply linkExists_true in Hr. congruence. }
  intros i j l1 l2 Hij H1 H2.
  apply lookup_snoc_Some in H1 as [[Hi H1]|[Hi <-]];
    apply lookup_snoc_Some in H2 as [[Hj H2]|[Hj <-]].
  - by eapply (Hinv i j).
  - intros [[Hs Ht]|(Hc & Hs & Ht)]; simpl in *;
      apply Hfresh; exists l1; (split; [by eapply list_elem_of_lookup_2|]).
    + by left.
    + by right.
  - lia.
  - lia.
Qed.

(** In an array without repeated entries no two entries have the same
    ordered ends. *)
Lemma NoDuplicateLinks_ordered ls :
  NoDuplicateLinks ls →
  ∀ (i j : nat) (l1 l2 : Link.t),
    i ≠ j → ls !! i = Some l1 → ls !! j = Some l2 → ¬ samePair l1 l2.
Proof.
  intros Hinv i j l1 l2 Hij H1 H2 [Hs Ht].
  destruct (Nat.lt_total i j) as [Hlt|[Heq|Hlt]]; [|done|].
  - apply (Hinv i j l1 l2 Hlt H1 H2). left. by split.
  - apply (Hinv j i l2 l1 Hlt H2 H1). left. by split.
Qed.

(** What is left of the comparison in either order: the earlier entry is
    a covariance link and the later one a directed link drawn the other
    way round. *)
Lemma NoDuplicateLinks_symmetric ls :
  NoDuplicateLinks ls →
  ∀ (i j : nat) (l1 l2 : Link.t),
    (i < j)%nat → ls !! i = Some l1 → ls !! j = Some l2 →
    samePairSymmetric l1 l2 →
    Link.type l1 = covariance ∧ Link.type l2 = directed ∧ reversedPair l2 l1.
Proof.
  intros Hinv i j l1 l2 Hij H1 H2 Hd.
  pose proof (Hinv i j l1 l2 Hij H1 H2) as Hno.
  destruct Hd as [[Hs Ht]|[Hc [Hs Ht]]].
  - exfalso. apply Hno. left. by split.
  - assert (Hrev : reversedPair l2 l1) by by split.
    destruct (Link.type l2) eqn:E2.
    + destruct Hc as [Hc|Hc]; [done|discriminate].
    + exfalso. apply Hno. by right.
Qed.

Lemma rendered_ui s :
  links (rendered s) = links s ∧ interactionMode (rendered s) = interactionMode s
  ∧ linkType (rendered s) = linkType s ∧ linkingSourceId (rendered s) = linkingSourceId s.
Proof. destruct (rendered_cases s) as [(-> & _)|(-> & _)]; done. Qed.

Lemma step_rendered e s : wf s → step e s = Some (rendered (handler e s)).
Proof. intros H. apply dispatch_wf. by apply handler_wf. Qed.

Lemma gesture_spec src tgt ty s :
  wf s → interactionMode s = link → linkingSourceId s = None →
  ∃ s', run (gesture (src, tgt, ty)) s = Some s'
        ∧ wf s' ∧ interactionMode s' = link ∧ linkingSourceId s' = None
        ∧ links s' = addLink (links s) src tgt ty.
Proof.
  intros Hwf Hm Hp. unfold gesture. cbn [run].
  rewrite (step_rendered _ s Hwf).
  set (s1 := rendered (handler (EvChooseLinkType ty) s)).
  assert (Hwf1 : wf s1) by (apply rendered_wf; by apply handler_wf).
  destruct (rendered_ui (handler (EvChooseLinkType ty) s)) as (Hl1 & Hm1 & Ht1 & Hp1).
  fold s1 in Hl1, Hm1, Ht1, Hp1. simpl in Hl1, Hm1, Ht1, Hp1.
  rewrite (step_rendered _ s1 Hwf1).
  set (s2 := rendered (handler (EvNodeClick src) s1)).
  assert (Hwf2 : wf s2) by (apply rendered_wf; by apply handler_wf).
  destruct (rendered_ui (handler (EvNodeClick src) s1)) as (Hl2 & Hm2 & Ht2 & Hp2).
  fold s2 in Hl2, Hm2, Ht2, Hp2.
  assert (Hh1 : handler (EvNodeClick src) s1 = setLinkingSourceId (Some src) s1).
  { simpl. unfold handleNodeClick. by rewrite Hm1, Hm, Hp1, Hp. }
  rewrite Hh1 in Hl2, Hm2, Ht2, Hp2. simpl in Hl2, Hm2, Ht2, Hp2.
  rewrite (step_rendered _ s2 Hwf2).
  set (s3 := rendered (handler (EvNodeClick tgt) s2)).
  assert (Hwf3 : wf s3) by (apply rendered_wf; by apply handler_wf).
  destruct (rendered_ui (handler (EvNodeClick tgt) s2)) as (Hl3 & Hm3 & Ht3 & Hp3).
  fold s3 in Hl3, Hm3, Ht3, Hp3.
  exists s3. split; [done|]. split; [done|].
  rewrite Hl3, Hm3, Hp3. simpl. unfold handleNodeClick, addLink.
  rewrite Hm2, Hm1, Hm, Hp2, Hl2, Hl1, Ht2, Ht1.
  case_bool_decide; simpl.
  - by rewrite Hm2, Hm1, Hm, Hl2, Hl1.
  - destruct (linkExists (links s) src tgt ty); simpl; by rewrite Hm2, Hm1, Hm, ?Hl2, ?Hl1.
Qed.

(** ** Links and deletion: claims C2 and C4 *)

(** Claim C2, as amended.  Started in link mode with no pending source on
    a link array in which no entry repeats an earlier one, any sequence of
    two-click gestures (each with its own link type) leaves a link array
    in which no entry repeats an earlier one: it has not the ordered
    (source, target) pair of an earlier entry, and a covariance entry has
    not the pair of an earlier entry in either order.  So no two entries
    have the same ordered pair; and two entries have the same pair with
    the covariance link compared in either order only when the earlier
    one is a covariance link and the later one a directed link drawn the
    other way round.  A gesture that repeats an existing ordered pair, or,
    for a covariance link, an existing pair in either order, leaves the
    array unchanged.  Drawing a -> b twice from no links yields the
    single link a -> b. *)
Theorem link_gestures_never_duplicate :
  (∀ (attempts : list (string * string * LinkType)) (s : State),
      wf s → interactionMode s = link → linkingSourceId s = None →
      NoDuplicateLinks (links s) →
      ∃ s', run (concat (map gesture attempts)) s = Some s'
            ∧ NoDuplicateLinks (links s')
            ∧ (∀ (i j : nat) (l1 l2 : Link.t),
                i ≠ j → links s' !! i = Some l1 → links s' !! j = Some l2 →
                ¬ samePair l1 l2)
            ∧ (∀ (i j : nat) (l1 l2 : Link.t),
                (i < j)%nat → links s' !! i = Some l1 → links s' !! j = Some l2 →
                samePairSymmetric l1 l2 →
                Link.type l1 = covariance ∧ Link.type l2 = directed
                ∧ reversedPair l2 l1))
  ∧ (∀ (src tgt : string) (ty : LinkType) (s : State),
      wf s → interactionMode s = link → linkingSourceId s = None →
      rejected (links s) src tgt ty →
      ∃ s', run (gesture (src, tgt, ty)) s = Some s' ∧ links s' = links s)
  ∧ (∃ s', run (gesture ("a", "b", directed) ++ gesture ("a", "b", directed))
               (chooseLinkMode (initialState [] [])) = Some s'
           ∧ links s' = [Link.mk "a" "b" directed]).
Proof.
  split; [|split].
  - intros attempts. induction attempts as [|[[src tgt] ty] attempts IH];
      intros s Hwf Hm Hp Hinv.
    + exists s. split; [done|]. split; [done|].
      split; [by apply NoDuplicateLinks_ordered|by apply NoDuplicateLinks_symmetric].
    + destruct (gesture_spec src tgt ty s Hwf Hm Hp) as (s1 & Hr & Hwf1 & Hm1 & Hp1 & Hl1).
      destruct (IH s1 Hwf1 Hm1 Hp1) as (s' & Hr' & Hinv').
      { rewrite Hl1. by apply addLink_no_duplicates. }
      exists s'. split; [|done].
      cbn [map concat].
      assert (Happ : ∀ es1 es2 a b, run es1 a = Some b → run (es1 ++ es2) a = run es2 b).
      { clear. induction es1 as [|e es1 IH]; intros es2 a b H; simpl in *.
        - by injection H as ->.
        - destruct (step e a); [by apply IH|done]. }
      by rewrite (Happ _ _ _ _ Hr).
  - intros src tgt ty s Hwf Hm Hp Hrej.
    destruct (gesture_spec src tgt ty s Hwf Hm Hp) as (s1 & Hr & _ & _ & _ & Hl1).
    exists s1. split; [done|]. rewrite Hl1. unfold addLink.
    apply linkExists_true in Hrej. rewrite Hrej. by case_bool_decide.
  - eexists. split; [vm_compute; reflexivity|reflexivity].
Qed.

Lemma link_gestures_never_duplicate_witness :
  ∃ s', run (concat (map gesture [("a", "b", covariance); ("b", "a", covariance);
                                  ("a", "b", directed); ("b", "a", directed)]))
            (chooseLinkMode (initialState [] [])) = Some s'
        ∧ NoDuplicateLinks (links s')
        ∧ (∀ (i j : nat) (l1 l2 : Link.t),
            i ≠ j → links s' !! i = Some l1 → links s' !! j = Some l2 →
            ¬ samePair l1 l2)
        ∧ (∀ (i j : nat) (l1 l2 : Link.t),
            (i < j)%nat → links s' !! i = Some l1 → links s' !! j = Some l2 →
            samePairSymmetric l1 l2 →
            Link.type l1 = covariance ∧ Link.type l2 = directed
            ∧ reversedPair l2 l1).
Proof.
  destruct link_gestures_never_duplicate as (H & _ & _).
  apply (H [("a", "b", covariance); ("b", "a", covariance); ("a", "b", directed);
            ("b", "a", directed)]
           (chooseLinkMode (initialState [] []))).
  - unfold wf, HISTORY_LIMIT. simpl. lia.
  - reflexivity.
  - reflexivity.
  - intros i j l1 l2 _ Hi. simpl in Hi. by rewrite lookup_nil in Hi.
Defined.

(** Claim C2 fails as it is stated.  The comparison in either order is
    made for the link being drawn only: the directed link b -> a drawn
    after the covariance link a <-> b is accepted, and the array then
    holds two entries with the same pair, the covariance link being
    compared in either order. *)
Example directed_after_reversed_covariance :
  ∃ s', run (gesture ("a", "b", covariance) ++ gesture ("b", "a", directed))
            (chooseLinkMode (initialState [] [])) = Some s'
        ∧ links s' = [Link.mk "a" "b" covariance; Link.mk "b" "a" directed]
        ∧ ∃ (i j : nat) (l1 l2 : Link.t),
            i ≠ j ∧ links s' !! i = Some l1 ∧ links s' !! j = Some l2
            ∧ samePairSymmetric l1 l2.
Proof.
  eexists. split; [vm_compute; reflexivity|]. split; [reflexivity|].
  exists 0%nat, 1%nat, (Link.mk "a" "b" covariance), (Link.mk "b" "a" directed).
  split; [done|]. split; [reflexivity|]. split; [reflexivity|].
  right. split; [by left|by split].
Qed.

(** Claim C4.  With a node selected (a non-empty id, as
    [if (selectedNodeId)] requires) and the deletion confirmed,
    [handleDeleteSelected] leaves no link whose source or target is that
    id and no node with that id, keeps every other node and link, and
    clears the selection.  On the nodes a, b, c with the links a -> b and
    a -> c, deleting a leaves the nodes b, c and no link. *)
Theorem delete_node_removes_incident_links :
  (∀ (s : State) (sel : string),
      selectedNodeId s = Some sel → sel ≠ "" →
      let s' := handleDeleteSelected true s in
      (∀ l, l ∈ links s' → Link.source l ≠ sel ∧ Link.target l ≠ sel)
      ∧ (∀ n, n ∈ nodes s' → Node.id n ≠ sel)
      ∧ (∀ l, l ∈ links s → Link.source l ≠ sel → Link.target l ≠ sel → l ∈ links s')
      ∧ (∀ n, n ∈ nodes s → Node.id n ≠ sel → n ∈ nodes s')
      ∧ selectedNodeId s' = None)
  ∧ (∀ (la lb lc : string) (xa ya xb yb xc yc : Z),
      let a := Node.mk "a" la latent xa ya in
      let b := Node.mk "b" lb latent xb yb in
      let c := Node.mk "c" lc observed xc yc in
      let s := initialState [a; b; c]
                 [Link.mk "a" "b" directed; Link.mk "a" "c" directed]
               |> handleNodeClick "a" in
      nodes (handleDeleteSelected true s) = [b; c]
      ∧ links (handleDeleteSelected true s) = []).
Proof.
  split.
  - intros s sel Hsel Hne s'. subst s'. unfold handleDeleteSelected.
    rewrite Hsel. assert (truthy (Some sel) = true) as -> by (by destruct sel).
    simpl. repeat split.
    + apply list_elem_of_In, filter_In in H as [_ H].
      apply andb_true_iff in H as [H _]. apply negb_true_iff, bool_decide_eq_false in H. done.
    + apply list_elem_of_In, filter_In in H as [_ H].
      apply andb_true_iff in H as [_ H]. apply negb_true_iff, bool_decide_eq_false in H. done.
    + intros n Hn. apply list_elem_of_In, filter_In in Hn as [_ H].
      apply negb_true_iff, bool_decide_eq_false in H. done.
    + intros l Hl H1 H2. apply list_elem_of_In, filter_In. split; [by apply list_elem_of_In|].
      rewrite !bool_decide_false by done. done.
    + intros n Hn H1. apply list_elem_of_In, filter_In. split; [by apply list_elem_of_In|].
      rewrite bool_decide_false by done. done.
  - intros. split; reflexivity.
Qed.

Lemma delete_node_removes_incident_links_witness :
  selectedNodeId
    (initialState [Node.mk "a" "A" latent 0 0; Node.mk "b" "B" latent 0 0]
                  [Link.mk "a" "b" directed; Link.mk "b" "b" covariance]
     |> handleNodeClick "a") = Some "a"
  ∧ (∀ l, l ∈ links (handleDeleteSelected true
                       (initialState [Node.mk "a" "A" latent 0 0; Node.mk "b" "B" latent 0 0]
                                     [Link.mk "a" "b" directed; Link.mk "b" "b" covariance]
                        |> handleNodeClick "a")) →
          Link.source l ≠ "a" ∧ Link.target l ≠ "a").
Proof.
  split; [reflexivity|].
  destruct delete_node_removes_incident_links as [H _].
  apply (H (initialState [Node.mk "a" "A" latent 0 0; Node.mk "b" "B" latent 0 0]
                         [Link.mk "a" "b" directed; Link.mk "b" "b" covariance]
            |> handleNodeClick "a") "a"); [reflexivity | discriminate].
Defined.

(** ** The layout on the three-node example: claim C6 *)

(** Claim C6.  On the nodes a (latent), b (latent), c (observed) with the
    links a -> b and a -> c, whatever their labels and previous positions,
    the layout puts a at (canvasPadding, canvasPadding), b at
    (canvasPadding + layerGap, canvasPadding), and c at the x-coordinate
    of a, 120 below a. *)
Theorem layout_three_node_scenario (la lb lc : string) (xa ya xb yb xc yc : Z) :
  layout [Node.mk "a" la latent xa ya; Node.mk "b" lb latent xb yb;
          Node.mk "c" lc observed xc yc]
         [Link.mk "a" "b" directed; Link.mk "a" "c" directed]
  = [Node.mk "a" la latent canvasPadding canvasPadding;
     Node.mk "b" lb latent (canvasPadding + layerGap) canvasPadding;
     Node.mk "c" lc observed canvasPadding (canvasPadding + 120)].
Proof. reflexivity. Qed.

(** ** Loops *)

Lemma forEachFrom_ind {A St} (P : St → Prop) (f : A → nat → St → St) :
  ∀ (a : list A) (i : nat) (s : St),
    P s → (∀ v j s, v ∈ a → P s → P (f v j s)) → P (forEachFrom i f a s).
Proof.
  induction a as [|v a IH]; intros i s Hs Hstep; simpl; [done|].
  apply IH.
  - apply Hstep; [left|done].
  - intros w j s' Hw. apply Hstep. by right.
Qed.

Lemma forEachFrom_grow {A St} (R : list A → St → St → Prop) (f g : A → nat → St → St) :
  ∀ (rest done : list A) (i : nat) (s s' : St),
    (∀ done v j s s', v ∈ rest → R done s s' → R (done ++ [v]) (f v j s) (g v j s')) →
    R done s s' →
    R (done ++ rest) (forEachFrom i f rest s) (forEachFrom i g rest s').
Proof.
  induction rest as [|v rest IH]; intros done i s s' Hstep Hs; simpl.
  - by rewrite app_nil_r.
  - rewrite (cons_middle v done rest), app_assoc. apply IH.
    + intros done' w j t t' Hw. apply Hstep. by right.
    + apply Hstep; [left|done].
Qed.

Lemma existsb_ext' {A} (f g : A → bool) (l : list A) :
  (∀ a, f a = g a) → existsb f l = existsb g l.
Proof. intros H. induction l as [|a l IH]; simpl; [done|]. by rewrite H, IH. Qed.

Lemma find_ext' {A} (f g : A → bool) (l : list A) :
  (∀ a, f a = g a) → List.find f l = List.find g l.
Proof. intros H. induction l as [|a l IH]; simpl; [done|]. by rewrite H, IH. Qed.

Lemma filterFrom_ext {A} (f g : A → nat → bool) (l : list A) (i : nat) :
  (∀ a j, f a j = g a j) → filterFrom i f l = filterFrom i g l.
Proof.
  intros H. revert i. induction l as [|a l IH]; intros i; simpl; [done|].
  by rewrite H, IH.
Qed.

Lemma findIndexFrom_ext {A} (f g : A → bool) (l : list A) (i : nat) :
  (∀ a, f a = g a) → findIndexFrom i f l = findIndexFrom i g l.
Proof.
  intros H. revert i. induction l as [|a l IH]; intros i; simpl; [done|].
  by rewrite H, IH.
Qed.

Lemma filterFrom_elem {A} (f : A → nat → bool) (l : list A) (i : nat) (v : A) :
  v ∈ filterFrom i f l → v ∈ l.
Proof.
  revert i. induction l as [|a l IH]; intros i; simpl; [done|].
  destruct (f a i); rewrite ?elem_of_cons; intros H.
  - destruct H as [->|H]; [by left | right; by eapply IH].
  - right. by eapply IH.
Qed.

(** ** Assignments through references *)

Lemma frames_setX r v h : frames (setX r v h) = frames h.
Proof.
  unfold frames, setX. rewrite (list_fmap_alter frame _ id).
  - by apply list_alter_id.
  - by apply Forall_true.
Qed.

Lemma frames_setY r v h : frames (setY r v h) = frames h.
Proof.
  unfold frames, setY. rewrite (list_fmap_alter frame _ id).
  - by apply list_alter_id.
  - by apply Forall_true.
Qed.

Lemma frames_length h h' : frames h = frames h' → length h = length h'.
Proof. intros H. apply (f_equal length) in H. unfold frames in H. by rewrite !length_fmap in H. Qed.

Lemma frames_lookup h h' r :
  frames h = frames h' →
  match h !! r, h' !! r with
  | Some n, Some n' => frame n = frame n'
  | None, None => True
  | _, _ => False
  end.
Proof.
  intros H. assert (H' : frames h !! r = frames h' !! r) by (by rewrite H).
  unfold frames in H'. rewrite !list_lookup_fmap in H'.
  destruct (h !! r), (h' !! r); simpl in H';
    first [by apply (inj Some) | discriminate | done].
Qed.

Lemma frames_total h h' r : frames h = frames h' → frame (h !!! r) = frame (h' !!! r).
Proof.
  intros H. apply (frames_lookup _ _ r) in H. rewrite !list_lookup_total_alt.
  destruct (h !! r), (h' !! r); simpl; done.
Qed.

Lemma frames_id h h' r : frames h = frames h' → Node.id (h !!! r) = Node.id (h' !!! r).
Proof. intros H. apply (frames_total _ _ r) in H. unfold frame in H. congruence. Qed.

Lemma frames_type h h' r : frames h = frames h' → Node.type (h !!! r) = Node.type (h' !!! r).
Proof. intros H. apply (frames_total _ _ r) in H. unfold frame in H. congruence. Qed.

(** What the layout reads besides positions depends on the frames only. *)
Lemma refsWhere_latent_frames h h' :
  frames h = frames h' → refsWhere isLatent h = refsWhere isLatent h'.
Proof.
  intros H. unfold refsWhere. rewrite (frames_length _ _ H).
  apply filter_ext. intros r. unfold isLatent. by rewrite (frames_type _ _ r H).
Qed.

Lemma refsWhere_observed_frames h h' :
  frames h = frames h' → refsWhere isObserved h = refsWhere isObserved h'.
Proof.
  intros H. unfold refsWhere. rewrite (frames_length _ _ H).
  apply filter_ext. intros r. unfold isObserved. by rewrite (frames_type _ _ r H).
Qed.

Lemma isExogenous_frames h h' lat links l :
  frames h = frames h' → isExogenous h lat links l = isExogenous h' lat links l.
Proof.
  intros H. unfold isExogenous. f_equal. apply existsb_ext'. intros lk.
  rewrite (frames_id _ _ l H). f_equal. apply existsb_ext'. intros src.
  by rewrite (frames_id _ _ src H).
Qed.

Lemma isEndogenous_frames h h' exo l :
  frames h = frames h' → isEndogenous h exo l = isEndogenous h' exo l.
Proof.
  intros H. unfold isEndogenous.
  rewrite (find_ext' _ (λ ex, bool_decide (Node.id (h' !!! ex) = Node.id (h' !!! l)))); [done|].
  intros ex. by rewrite (frames_id _ _ ex H), (frames_id _ _ l H).
Qed.

Lemma someObserved_frames h h' obs i :
  frames h = frames h' → someObserved h obs i = someObserved h' obs i.
Proof.
  intros H. apply existsb_ext'. intros o. by rewrite (frames_id _ _ o H).
Qed.

Lemma findObserved_frames h h' obs i :
  frames h = frames h' → findObserved h obs i = findObserved h' obs i.
Proof.
  intros H. apply find_ext'. intros o. by rewrite (frames_id _ _ o H).
Qed.

Lemma firstOfItsId_frames h h' a v i :
  frames h = frames h' → firstOfItsId h a v i = firstOfItsId h' a v i.
Proof.
  intros H. destruct v as [o|]; [|done]. simpl. unfold findIndex.
  rewrite (findIndexFrom_ext _
             (λ t, match t with
                   | Some o' => bool_decide (Node.id (h' !!! o') = Node.id (h' !!! o))
                   | None => false
                   end)); [done|].
  intros [o'|]; [|done].
  by rewrite (frames_id _ _ o H), (frames_id _ _ o' H).
Qed.

Lemma connectedObs_frames h h' obs links lr :
  frames h = frames h' → connectedObs h obs links lr = connectedObs h' obs links lr.
Proof.
  intros H. unfold connectedObs. cbv zeta. rewrite (frames_id _ _ lr H).
  rewrite (filter_ext (connects h obs (Node.id (h' !!! lr)))
                      (connects h' obs (Node.id (h' !!! lr)))).
  2:{ intros l. unfold connects. by rewrite !(someObserved_frames h h'). }
  rewrite (map_ext (otherEnd h obs (Node.id (h' !!! lr)))
                   (otherEnd h' obs (Node.id (h' !!! lr)))).
  2:{ intros l. unfold otherEnd. by apply findObserved_frames. }
  apply filterFrom_ext. intros v j. by apply firstOfItsId_frames.
Qed.

(** ** Two heaps that agree on a set of references *)

Lemma agree_weaken (D D' : nat → Prop) h h' :
  agree D h h' → (∀ q, D' q → D q) → agree D' h h'.
Proof. intros [Hf Ha] Hd. split; [done|]. intros q Hq. apply Ha, Hd, Hq. Qed.

Lemma agree_total D h h' q : agree D h h' → D q → h !!! q = h' !!! q.
Proof. intros [_ Ha] Hq. rewrite !list_lookup_total_alt. by rewrite (Ha q Hq). Qed.

Lemma agree_setX D r v h h' : agree D h h' → agree D (setX r v h) (setX r v h').
Proof.
  intros [Hf Ha]. split; [by rewrite !frames_setX|].
  intros q Hq. unfold setX. rewrite !list_lookup_alter.
  case_decide; [subst|]; by rewrite Ha.
Qed.

Lemma agree_setY D r v h h' : agree D h h' → agree D (setY r v h) (setY r v h').
Proof.
  intros [Hf Ha]. split; [by rewrite !frames_setY|].
  intros q Hq. unfold setY. rewrite !list_lookup_alter.
  case_decide; [subst|]; by rewrite Ha.
Qed.

(** After the same two assignments the heaps agree on the object too. *)
Lemma agree_place D o a b h h' :
  agree D h h' →
  agree (λ q, D q ∨ q = o) (setY o b (setX o a h)) (setY o b (setX o a h')).
Proof.
  intros Hag. split; [by rewrite !frames_setY, !frames_setX; apply Hag|].
  intros q [Hq| ->].
  - by apply (agree_setY D _ _ _ _ (agree_setX D _ _ _ _ Hag)).
  - destruct Hag as [Hf _]. apply (frames_lookup _ _ o) in Hf.
    unfold setY, setX. rewrite !list_lookup_alter_eq.
    destruct (h !! o) as [n|], (h' !! o) as [n'|]; simpl; try done.
    unfold frame in Hf. injection Hf as H1 H2 H3. by rewrite H1, H2, H3.
Qed.

(** A heap that differs from [h0] at most in the positions of the
    objects in [W]. *)
Lemma below_refl W h : below W h h.
Proof. done. Qed.

Lemma below_setX (W : nat → Prop) h0 h r v :
  below W h0 h → W r → below W h0 (setX r v h).
Proof.
  intros [Hf Hb] Hr. split; [by rewrite frames_setX|].
  intros q Hq. unfold setX. rewrite list_lookup_alter_ne; [by apply Hb|].
  intros ->. done.
Qed.

Lemma below_setY (W : nat → Prop) h0 h r v :
  below W h0 h → W r → below W h0 (setY r v h).
Proof.
  intros [Hf Hb] Hr. split; [by rewrite frames_setY|].
  intros q Hq. unfold setY. rewrite list_lookup_alter_ne; [by apply Hb|].
  intros ->. done.
Qed.

(** ** The two halvings of the layout are exact *)

Lemma endoStartY_exact (nExo nEndo : nat) :
  2 * ((Z.of_nat nExo * nodeGap - Z.of_nat nEndo * nodeGap) / 2)
  = Z.of_nat nExo * nodeGap - Z.of_nat nEndo * nodeGap.
Proof.
  unfold nodeGap.
  replace (Z.of_nat nExo * 180 - Z.of_nat nEndo * 180)
    with ((Z.of_nat nExo * 90 - Z.of_nat nEndo * 90) * 2) by lia.
  rewrite Z.div_mul by lia. lia.
Qed.

Lemma totalWidth_exact (n : nat) :
  2 * ((Z.of_nat n - 1) * observedGap / 2) = (Z.of_nat n - 1) * observedGap.
Proof.
  unfold observedGap.
  replace ((Z.of_nat n - 1) * 100) with ((Z.of_nat n - 1) * 50 * 2) by lia.
  rewrite Z.div_mul by lia. lia.
Qed.

(** ** The three placement loops *)

Lemma placeExogenous_below (W : nat → Prop) h0 h exo :
  below W h0 h → (∀ r, r ∈ exo → W r) → below W h0 (placeExogenous exo h).
Proof.
  intros Hb Hw. unfold placeExogenous, forEach.
  apply (forEachFrom_ind (λ st, below W h0 st.1)); [done|].
  intros v j [h1 y] Hv Hb1. simpl in *.
  apply below_setY; [apply below_setX|]; auto.
Qed.

Lemma placeEndogenous_below (W : nat → Prop) h0 h endo startY :
  below W h0 h → (∀ r, r ∈ endo → W r) → below W h0 (placeEndogenous endo startY h).
Proof.
  intros Hb Hw. unfold placeEndogenous, forEach.
  apply (forEachFrom_ind (below W h0)); [done|].
  intros v j h1 Hv Hb1. apply below_setY; [apply below_setX|]; auto.
Qed.

Lemma placeObserved_below (W : nat → Prop) h0 h obs links lr :
  below W h0 h → (∀ q, Some q ∈ connectedObs h obs links lr → W q) →
  below W h0 (placeObserved obs links lr h).
Proof.
  intros Hb Hw. unfold placeObserved. cbv zeta.
  destruct (0 <? length (connectedObs h obs links lr))%nat; [|done].
  unfold forEach. apply (forEachFrom_ind (below W h0)); [done|].
  intros [o|] j h1 Hv Hb1; [|done].
  apply below_setY; [apply below_setX|]; auto.
Qed.

Lemma placeExogenous_agree (D : nat → Prop) h h' exo :
  agree D h h' →
  agree (λ q, D q ∨ q ∈ exo) (placeExogenous exo h) (placeExogenous exo h').
Proof.
  intros Hag. unfold placeExogenous, forEach.
  pose (R := λ (done : list nat) (st st' : list Node.t * Z),
               st.2 = st'.2 ∧ agree (λ q, D q ∨ q ∈ done) st.1 st'.1).
  assert (HR : R ([] ++ exo)
                 (forEachFrom 0 (λ node (_ : nat) '(h, currentY),
                    (h |> setX node canvasPadding |> setY node currentY,
                     currentY + nodeGap)) exo (h, canvasPadding))
                 (forEachFrom 0 (λ node (_ : nat) '(h, currentY),
                    (h |> setX node canvasPadding |> setY node currentY,
                     currentY + nodeGap)) exo (h', canvasPadding))).
  { apply (forEachFrom_grow R).
    - intros done v j [h1 y1] [h2 y2] _ [Hy Ha]. simpl in *. subst y2.
      split; [done|]. simpl.
      eapply agree_weaken; [exact (agree_place _ v canvasPadding y1 _ _ Ha)|].
      intros q [Hq|Hq]; [by left; left|].
      apply elem_of_app in Hq as [Hq|Hq]; [by left; right|].
      apply list_elem_of_singleton in Hq. by right.
    - split; [done|]. simpl. eapply agree_weaken; [done|].
      intros q [Hq|Hq]; [done|]. by apply elem_of_nil in Hq. }
  apply HR.
Qed.

Lemma placeEndogenous_agree (D : nat → Prop) h h' endo startY :
  agree D h h' →
  agree (λ q, D q ∨ q ∈ endo) (placeEndogenous endo startY h)
        (placeEndogenous endo startY h').
Proof.
  intros Hag. unfold placeEndogenous, forEach.
  pose (R := λ (done : list nat) (h1 h2 : list Node.t),
               agree (λ q, D q ∨ q ∈ done) h1 h2).
  apply (forEachFrom_grow R _ _ endo []).
  - intros done v j h1 h2 _ Ha. unfold R in *.
    eapply agree_weaken; [exact (agree_place _ v _ _ _ _ Ha)|].
    intros q [Hq|Hq]; [by left; left|].
    apply elem_of_app in Hq as [Hq|Hq]; [by left; right|].
    apply list_elem_of_singleton in Hq. by right.
  - unfold R. eapply agree_weaken; [done|].
    intros q [Hq|Hq]; [done|]. by apply elem_of_nil in Hq.
Qed.

Lemma placeObserved_agree (D : nat → Prop) h h' obs links lr :
  agree D h h' → D lr →
  agree (λ q, D q ∨ Some q ∈ connectedObs h obs links lr)
        (placeObserved obs links lr h) (placeObserved obs links lr h').
Proof.
  intros Hag Hlr. unfold placeObserved. cbv zeta.
  rewrite <- (connectedObs_frames h h' obs links lr (proj1 Hag)).
  rewrite <- (agree_total D h h' lr Hag Hlr).
  generalize (connectedObs h obs links lr). intros conn.
  destruct (Nat.ltb_spec 0 (length conn)) as [Hpos|Hz].
  - unfold forEach.
    pose (R := λ (done : list (option nat)) (h1 h2 : list Node.t),
                 agree (λ q, D q ∨ Some q ∈ done) h1 h2).
    apply (forEachFrom_grow R _ _ conn []).
    + intros done [o|] j h1 h2 _ Ha; unfold R in *.
      * pose proof (agree_setX _ o
          (Node.x (h !!! lr) - (Z.of_nat (length conn) - 1) * observedGap / 2
           + Z.of_nat j * observedGap) _ _ Ha) as Ha1.
        rewrite <- (agree_total _ _ _ lr Ha1 (or_introl Hlr)).
        eapply agree_weaken; [exact (agree_place _ o _ _ _ _ Ha)|].
        intros q [Hq|Hq]; [by left; left|].
        apply elem_of_app in Hq as [Hq|Hq]; [by left; right|].
        apply list_elem_of_singleton in Hq. right. congruence.
      * eapply agree_weaken; [exact Ha|].
        intros q [Hq|Hq]; [by left|].
        apply elem_of_app in Hq as [Hq|Hq]; [by right|].
        by apply list_elem_of_singleton in Hq.
    + unfold R. eapply agree_weaken; [done|].
      intros q [Hq|Hq]; [done|]. by apply elem_of_nil in Hq.
  - destruct conn; [|simpl in Hz; lia].
    eapply agree_weaken; [done|].
    intros q [Hq|Hq]; [done|]. by apply elem_of_nil in Hq.
Qed.

(** ** The layout as a whole *)

Lemma isExogenous_id h lat links a b :
  Node.id (h !!! a) = Node.id (h !!! b) →
  isExogenous h lat links a = isExogenous h lat links b.
Proof. intros H. unfold isExogenous. by rewrite H. Qed.

(** Every latent is in one of the two columns. *)
Lemma latent_placed h links lr :
  let latents := refsWhere isLatent h in
  let exo := List.filter (isExogenous h latents links) latents in
  let endo := List.filter (isEndogenous h exo) latents in
  lr ∈ latents → lr ∈ exo ∨ lr ∈ endo.
Proof.
  intros latents exo endo Hlr.
  destruct (isExogenous h latents links lr) eqn:He.
  - left. apply list_elem_of_In, filter_In. split; [by apply list_elem_of_In|done].
  - right. apply list_elem_of_In, filter_In. split; [by apply list_elem_of_In|].
    unfold isEndogenous.
    destruct (List.find _ exo) as [ex|] eqn:Hf; [|done].
    apply find_some in Hf as [Hin Hid]. apply bool_decide_eq_true in Hid.
    apply filter_In in Hin as [_ Hex].
    rewrite (isExogenous_id h latents links ex lr Hid) in Hex. congruence.
Qed.

Lemma filter_elem {A} (f : A → bool) (l : list A) (v : A) :
  v ∈ List.filter f l → v ∈ l.
Proof. intros H. apply list_elem_of_In, filter_In in H as [H _]. by apply list_elem_of_In. Qed.

Lemma touchedBy_latent h links q :
  q ∈ refsWhere isLatent h → q ∈ touchedBy h links.
Proof. intros H. unfold touchedBy. apply elem_of_app. by left. Qed.

Lemma touchedBy_connected h links lr q :
  lr ∈ refsWhere isLatent h →
  Some q ∈ connectedObs h (refsWhere isObserved h) links lr →
  q ∈ touchedBy h links.
Proof.
  intros Hlr Hq. unfold touchedBy. apply elem_of_app. right.
  apply list_elem_of_bind. exists lr. split; [|done].
  apply list_elem_of_omap. by exists (Some q).
Qed.

(** The layout keeps ids, labels and types, and leaves alone every object
    it does not place. *)
Lemma layout_below h links :
  below (λ q, q ∈ touchedBy h links) h (layout h links).
Proof.
  unfold layout. rewrite map_cloneNode. cbv zeta.
  set (W := λ q, q ∈ touchedBy h links).
  set (latents := refsWhere isLatent h).
  set (observed := refsWhere isObserved h).
  set (exo := List.filter (isExogenous h latents links) latents).
  set (endo := List.filter (isEndogenous h exo) latents).
  unfold forEach. apply (forEachFrom_ind (below W h)).
  - apply placeEndogenous_below; [apply placeExogenous_below; [done|]|].
    + intros r Hr. apply touchedBy_latent. by apply filter_elem in Hr.
    + intros r Hr. apply touchedBy_latent. by apply filter_elem in Hr.
  - intros lr j h1 Hlr Hb. apply placeObserved_below; [done|].
    intros q Hq. rewrite (connectedObs_frames h1 h _ _ _ (proj1 Hb)) in Hq.
    by eapply touchedBy_connected.
Qed.

Lemma layout_frames h links : frames (layout h links) = frames h.
Proof. apply layout_below. Qed.

(** Two heaps with the same frames that agree outside the placed objects
    are laid out identically. *)
Lemma layout_agree h h' links :
  frames h = frames h' →
  (∀ q, h !! q = h' !! q ∨ q ∈ touchedBy h links) →
  layout h links = layout h' links.
Proof.
  intros Hf Hout. unfold layout. rewrite !map_cloneNode. cbv zeta.
  rewrite <- (refsWhere_latent_frames h h' Hf), <- (refsWhere_observed_frames h h' Hf).
  set (latents := refsWhere isLatent h).
  set (observed := refsWhere isObserved h).
  rewrite (filter_ext (isExogenous h' latents links) (isExogenous h latents links))
    by (intros l; symmetry; by apply isExogenous_frames).
  set (exo := List.filter (isExogenous h latents links) latents).
  rewrite (filter_ext (isEndogenous h' exo) (isEndogenous h exo))
    by (intros l; symmetry; by apply isEndogenous_frames).
  set (endo := List.filter (isEndogenous h exo) latents).
  set (startY := endoStartY (length exo) (length endo)).
  pose (D0 := λ q, h !! q = h' !! q).
  assert (H0 : agree D0 h h') by done.
  pose proof (placeExogenous_agree D0 h h' exo H0) as H4.
  pose proof (placeEndogenous_agree _ _ _ endo startY H4) as H5.
  set (h5 := placeEndogenous endo startY (placeExogenous exo h)) in *.
  set (h5' := placeEndogenous endo startY (placeExogenous exo h')) in *.
  assert (Hb5 : frames h5 = frames h).
  { apply (placeEndogenous_below (λ _, True) h); [|done].
    apply placeExogenous_below; done. }
  pose (D1 := λ q, D0 q ∨ q ∈ latents).
  pose (R := λ (done : list nat) (h1 h2 : list Node.t),
               frames h1 = frames h
               ∧ agree (λ q, D1 q ∨ ∃ lr, lr ∈ done
                                          ∧ Some q ∈ connectedObs h observed links lr)
                       h1 h2).
  assert (HR : R ([] ++ latents)
                 (forEach (λ latent (_ : nat) h, placeObserved observed links latent h) latents h5)
                 (forEach (λ latent (_ : nat) h, placeObserved observed links latent h) latents h5')).
  { unfold forEach. apply (forEachFrom_grow R).
    - intros done lr j h1 h2 Hlr [Hf1 Ha]. split.
      + rewrite <- Hf1. apply (placeObserved_below (λ _, True) h1); done.
      + pose proof (placeObserved_agree _ h1 h2 observed links lr Ha
                      (or_introl (or_intror Hlr))) as Hp.
        rewrite (connectedObs_frames h1 h _ _ _ Hf1) in Hp.
        eapply agree_weaken; [exact Hp|].
        intros q [Hq|(lr' & Hin & Hq)]; [by left; left|].
        apply elem_of_app in Hin as [Hin|Hin].
        * left. right. by exists lr'.
        * apply list_elem_of_singleton in Hin. subst lr'. by right.
    - split; [done|]. eapply agree_weaken; [exact H5|].
      intros q [[Hq|Hq]|(lr & Hin & _)].
      + by left; left.
      + destruct (latent_placed h links q Hq) as [He|He]; [left; by right|by right].
      + by apply elem_of_nil in Hin. }
  destruct HR as [_ [_ Hfin]]. apply list_eq. intros q. apply Hfin.
  destruct (Hout q) as [Hq|Hq]; [by left; left|].
  unfold touchedBy in Hq. apply elem_of_app in Hq as [Hq|Hq]; [by left; right|].
  apply list_elem_of_bind in Hq as (lr & Hq & Hlr).
  apply list_elem_of_omap in Hq as (v & Hv & Hid). simpl in Hid. subst v.
  right. by exists lr.
Qed.

Lemma layout_idempotent h links :
  layout (layout h links) links = layout h links.
Proof.
  symmetry. apply layout_agree.
  - symmetry. apply layout_frames.
  - intros q. destruct (decide (q ∈ touchedBy h links)) as [Hq|Hq]; [by right|].
    left. symmetry. by apply layout_below.
Qed.

(** ** References and what step 6 collects *)

Lemma refsWhere_elem p h q :
  q ∈ refsWhere p h ↔ h !! q = Some (h !!! q) ∧ p (h !!! q) = true.
Proof.
  unfold refsWhere. rewrite list_elem_of_In, filter_In, <- list_elem_of_In, elem_of_seq.
  split.
  - intros [Hq Hp]. split; [|done].
    apply list_lookup_lookup_total_lt. lia.
  - intros [Hq Hp]. split; [|done]. apply lookup_lt_Some in Hq. lia.
Qed.

Lemma someObserved_find h obs i :
  someObserved h obs i = true → is_Some (findObserved h obs i).
Proof.
  unfold someObserved, findObserved. intros H.
  apply existsb_exists in H as (o & Hin & Ho).
  destruct (List.find _ obs) eqn:Hf; [done|].
  pose proof (find_none _ _ Hf o Hin) as Hn. simpl in Hn. congruence.
Qed.

(** The [map] of step 6 never yields [undefined]. *)
Lemma otherEnd_defined h obs lid l :
  connects h obs lid l = true → is_Some (otherEnd h obs lid l).
Proof.
  unfold connects, otherEnd. intros H. cbv zeta.
  case_bool_decide as Hs.
  - apply orb_true_iff in H as [H|H]; [by apply someObserved_find|].
    apply andb_true_iff in H as [Ht H]. apply bool_decide_eq_true in Ht.
    apply someObserved_find. congruence.
  - simpl in H. apply andb_true_iff in H as [_ H]. by apply someObserved_find.
Qed.

Lemma connectedObs_linked h obs links lr q :
  Some q ∈ connectedObs h obs links lr →
  q ∈ obs ∧ ∃ l, l ∈ links ∧ linked l (Node.id (h !!! lr)) (Node.id (h !!! q)).
Proof.
  unfold connectedObs. cbv zeta. intros H. apply filterFrom_elem in H.
  apply list_elem_of_In, in_map_iff in H as (l & Hl & Hin).
  apply filter_In in Hin as [Hin Hc].
  unfold otherEnd, findObserved in Hl. cbv zeta in Hl.
  apply find_some in Hl as [Hq Hid]. apply bool_decide_eq_true in Hid.
  split; [by apply list_elem_of_In|]. exists l. split; [by apply list_elem_of_In|].
  unfold connects in Hc. case_bool_decide as Hs.
  - left. done.
  - right. simpl in Hc. apply andb_true_iff in Hc as [Ht _].
    apply bool_decide_eq_true in Ht. done.
Qed.

Lemma touchedBy_cases h links q :
  q ∈ touchedBy h links →
  ∃ n, h !! q = Some n
       ∧ (Node.type n = latent
          ∨ (Node.type n = observed ∧ attachedToLatent h links n)).
Proof.
  unfold touchedBy. intros H. apply elem_of_app in H as [H|H].
  - apply refsWhere_elem in H as [Hq Hp]. exists (h !!! q). split; [done|].
    left. by apply bool_decide_eq_true in Hp.
  - apply list_elem_of_bind in H as (lr & H & Hlr).
    apply list_elem_of_omap in H as (v & Hv & Hid). simpl in Hid. subst v.
    apply connectedObs_linked in Hv as (Hobs & l & Hl & Hlk).
    apply refsWhere_elem in Hobs as [Hq Hp]. apply refsWhere_elem in Hlr as [Hm Hpm].
    exists (h !!! q). split; [done|]. right.
    split; [by apply bool_decide_eq_true in Hp|].
    exists l, (h !!! lr). split; [done|].
    split; [by eapply list_elem_of_lookup_2|].
    split; [by apply bool_decide_eq_true in Hpm|done].
Qed.

(** ** The layout in general: claims C9 and C7 *)

(** What [autoLayout] hands to [setNodes] is the layout of the nodes, also
    when it returns early. *)
Lemma autoLayout_nodes s :
  nodes (autoLayout s) = layout (nodes s) (links s) ∧ links (autoLayout s) = links s.
Proof.
  unfold autoLayout. rewrite map_cloneNode.
  destruct (Nat.eqb (length (refsWhere isLatent (nodes s))) 0
            && Nat.eqb (length (refsWhere isObserved (nodes s))) 0) eqn:He; [|done].
  split; [|done].
  apply andb_true_iff in He as [H1 H2]. apply Nat.eqb_eq in H1, H2.
  destruct (nodes s) as [|n ns]; [done|]. exfalso.
  unfold refsWhere in H1, H2. simpl in H1, H2.
  unfold isLatent in H1. unfold isObserved in H2.
  destruct (Node.type n); simpl in *; discriminate.
Qed.

(** Claim C9.  An observed node that no link joins to a latent node is
    left as it is by [autoLayout]; every node keeps its id, label and
    type; and a node that did change is a latent or an observed node
    linked to a latent. *)
Theorem layout_leaves_unattached_observed (s : State) (i : nat) (n : Node.t) :
  nodes s !! i = Some n →
  Node.type n = observed →
  ¬ attachedToLatent (nodes s) (links s) n →
  nodes (autoLayout s) !! i = Some n
  ∧ frames (nodes (autoLayout s)) = frames (nodes s)
  ∧ (∀ j m m', nodes s !! j = Some m → nodes (autoLayout s) !! j = Some m' → m' ≠ m →
       Node.type m = latent
       ∨ (Node.type m = observed ∧ attachedToLatent (nodes s) (links s) m)).
Proof.
  intros Hi Hty Hun. destruct (autoLayout_nodes s) as [-> _].
  pose proof (layout_below (nodes s) (links s)) as [Hf Hb].
  split; [|split; [done|]].
  - rewrite Hb; [done|]. intros Ht.
    apply touchedBy_cases in Ht as (n' & Hn' & Hc).
    assert (n' = n) as -> by congruence.
    destruct Hc as [Hl|[_ Ha]]; [congruence|done].
  - intros j m m' Hm Hm' Hne.
    destruct (decide (j ∈ touchedBy (nodes s) (links s))) as [Ht|Ht].
    + apply touchedBy_cases in Ht as (n' & Hn' & Hc).
      assert (n' = m) as -> by congruence. done.
    + rewrite (Hb j Ht), Hm in Hm'. congruence.
Qed.

Lemma layout_leaves_unattached_observed_witness :
  nodes (autoLayout (initialState
           [Node.mk "a" "A" latent 7 8; Node.mk "c" "C" observed 5 6;
            Node.mk "d" "D" observed 33 44]
           [Link.mk "a" "c" directed])) !! 2%nat
  = Some (Node.mk "d" "D" observed 33 44).
Proof.
  apply (layout_leaves_unattached_observed
           (initialState [Node.mk "a" "A" latent 7 8; Node.mk "c" "C" observed 5 6;
                          Node.mk "d" "D" observed 33 44]
                         [Link.mk "a" "c" directed]) 2 (Node.mk "d" "D" observed 33 44)).
  - reflexivity.
  - reflexivity.
  - intros (l & m & Hl & _ & _ & Hlk). simpl in Hl.
    apply list_elem_of_singleton in Hl. subst l.
    destruct Hlk as [[_ H]|[_ H]]; simpl in H; discriminate.
Defined.

(** Claim C7.  On a graph whose latents are all exogenous and whose
    observed nodes are each linked to a latent, laying out the result of
    the layout once more changes nothing.  (Lemma [layout_idempotent]
    shows that the two conditions are not needed.) *)
Theorem layout_idempotent_on_exogenous_models (s : State) :
  allExogenous (nodes s) (links s) →
  observedAttached (nodes s) (links s) →
  layout (layout (nodes s) (links s)) (links s) = layout (nodes s) (links s)
  ∧ nodes (autoLayout (autoLayout s)) = nodes (autoLayout s).
Proof.
  intros _ _. split; [apply layout_idempotent|].
  destruct (autoLayout_nodes (autoLayout s)) as [-> _].
  destruct (autoLayout_nodes s) as [-> ->]. apply layout_idempotent.
Qed.

Lemma layout_idempotent_on_exogenous_models_witness :
  nodes (autoLayout (autoLayout twoFactors)) = nodes (autoLayout twoFactors).
Proof.
  apply (layout_idempotent_on_exogenous_models twoFactors).
  - intros l m m' Hl Hm Hm' Ht Ht' Hne Hd [Hs Hta].
    simpl in Hl, Hm, Hm'.
    repeat (apply elem_of_cons in Hl as [->|Hl]); try (by apply elem_of_nil in Hl);
      try discriminate;
      repeat (apply elem_of_cons in Hm as [->|Hm]); try (by apply elem_of_nil in Hm);
      try discriminate;
      repeat (apply elem_of_cons in Hm' as [->|Hm']); try (by apply elem_of_nil in Hm');
      try discriminate.
  - intros n Hn Ht. simpl in Hn.
    repeat (apply elem_of_cons in Hn as [->|Hn]); try (by apply elem_of_nil in Hn);
      try discriminate.
    + exists (Link.mk "f1" "x1" directed), (Node.mk "f1" "F1" latent 0 0).
      split; [by repeat constructor|]. split; [by repeat constructor|]. split; [done|]. by left.
    + exists (Link.mk "f1" "x2" directed), (Node.mk "f1" "F1" latent 0 0).
      split; [by repeat constructor|]. split; [by repeat constructor|]. split; [done|]. by left.
    + exists (Link.mk "y1" "f2" directed), (Node.mk "f2" "F2" latent 30 0).
      split; [by repeat constructor|]. split; [by repeat constructor|]. split; [done|]. by right.
Defined.

(** * Further properties *)

(** ** The render loop on reachable states *)

Lemma settle_still h :
  isUndoRedoAction h = true ∨ graph h = Snapshot.mk [] [] ∨ current h = Some (graph h) →
  settle PASSES h = Some (setIsUndoRedoAction false h).
Proof. intros H. unfold PASSES. cbn [settle]. by rewrite recordEffect_quiet. Qed.

Lemma settle_flag n : ∀ s s', settle n s = Some s' → isUndoRedoAction s' = false.
Proof.
  induction n as [|n IH]; intros s s' H; [done|].
  cbn [settle] in H. destruct (recordEffect s s) as [s1 ch] eqn:He.
  destruct ch; [by eapply IH|].
  injection H as <-. change s1 with (s1, false).1. rewrite <- He. apply rendered_flag.
Qed.

Lemma rendered_indexed h : wf h → indexed h → indexed (rendered h).
Proof.
  intros Hwf Hi. destruct (rendered_cases h) as [(-> & _)|(-> & _)]; [done|].
  right. destruct (history_operations_in_bounds h Hwf) as [H _].
  apply (H (nodes h) (links h)).
Qed.

Lemma rendered_rest h :
  wf h →
  (isUndoRedoAction h = true → current h = Some (graph h)) →
  graph (rendered h) = Snapshot.mk [] [] ∨ current (rendered h) = Some (graph (rendered h)).
Proof.
  intros Hwf Hrep.
  assert (Hg : graph (rendered h) = graph h).
  { destruct (rendered_graph h) as [Hn Hl]. unfold graph. by rewrite Hn, Hl. }
  rewrite Hg.
  destruct (isUndoRedoAction h) eqn:Hf.
  - right. destruct (rendered_cases h) as [(-> & _)|(_ & _ & Hf' & _)]; [|congruence].
    by apply Hrep.
  - destruct (decide (graph h = Snapshot.mk [] [])) as [He|He]; [by left|right].
    by apply rendered_current.
Qed.

Lemma undo_indexed s : wf s → indexed s → indexed (undo s).
Proof.
  intros [Hb Hx] Hi. unfold undo.
  destruct (Z.ltb_spec 0 (historyIndex s)); [|done].
  destruct Hi as [[_ Hi]|Hi]; [lia|].
  destruct (at_index _ _); right; unfold inBounds in *; simpl; lia.
Qed.

Lemma redo_indexed s : wf s → indexed s → indexed (redo s).
Proof.
  intros [Hb Hx] Hi. unfold redo.
  destruct (Z.ltb_spec (historyIndex s) (Z.of_nat (length (history s)) - 1)); [|done].
  destruct (at_index _ _); [|done]. right. unfold inBounds. simpl. lia.
Qed.

Lemma autoLayout_indexed s : wf s → indexed s → indexed (autoLayout s).
Proof.
  intros Hwf Hi. unfold autoLayout. destruct (_ && _); [done|]. right.
  destruct (history_operations_in_bounds (setNodes (layout (nodes s) (links s)) s) Hwf)
    as [H _].
  apply H.
Qed.

Lemma handler_indexed e s : wf s → indexed s → indexed (handler e s).
Proof.
  intros Hwf Hi. destruct e; simpl;
    try (change (indexed (handleCanvasClick ?x)) with (indexed x));
    auto using undo_indexed, redo_indexed, autoLayout_indexed.
  - destruct confirmed; [|done]. right. unfold inBounds. simpl. lia.
  - destruct confirmed; [|done]. right. unfold inBounds. simpl. lia.
  - unfold handleDeleteSelected.
    destruct (selectedNodeId s); [destruct (truthy _)|];
      destruct confirmed; try done; destruct (selectedLinkIndex s); done.
  - unfold handleNodeClick. destruct (interactionMode s); [done|].
    destruct (linkingSourceId s); [|done].
    case_bool_decide; [done|]. simpl. destruct (negb _); done.
  - unfold handleDragEnd. destruct (interactionMode s); done.
  - unfold addNode. destruct (isBlank _); done.
Qed.

(** A pending replay flag after a handler means that undo or redo moved
    the index and set the graph to the entry there. *)
Lemma undo_replay s :
  wf s → isUndoRedoAction s = false →
  isUndoRedoAction (undo s) = true → current (undo s) = Some (graph (undo s)).
Proof.
  intros [Hb Hx] Hf. unfold undo.
  destruct (Z.ltb_spec 0 (historyIndex s)); [|congruence].
  destruct (at_index (history s) (historyIndex s - 1)) as [p|] eqn:Hp.
  - intros _. unfold current. simpl. rewrite Hp. by destruct p.
  - unfold at_index in Hp. destruct (Z.ltb_spec (historyIndex s - 1) 0); [lia|].
    apply lookup_ge_None in Hp. lia.
Qed.

Lemma redo_replay s :
  wf s → isUndoRedoAction s = false →
  isUndoRedoAction (redo s) = true → current (redo s) = Some (graph (redo s)).
Proof.
  intros [Hb Hx] Hf. unfold redo.
  destruct (Z.ltb_spec (historyIndex s) (Z.of_nat (length (history s)) - 1)); [|congruence].
  destruct (at_index (history s) (historyIndex s + 1)) as [p|] eqn:Hp.
  - intros _. unfold current. simpl. rewrite Hp. by destruct p.
  - unfold at_index in Hp. destruct (Z.ltb_spec (historyIndex s + 1) 0); [lia|].
    apply lookup_ge_None in Hp. lia.
Qed.

Lemma autoLayout_flag s : isUndoRedoAction (autoLayout s) = isUndoRedoAction s.
Proof. unfold autoLayout. destruct (_ && _); done. Qed.

Lemma handler_replay e s :
  wf s → isUndoRedoAction s = false →
  isUndoRedoAction (handler e s) = true →
  current (handler e s) = Some (graph (handler e s)).
Proof.
  intros Hwf Hf. destruct e; simpl;
    try (change (isUndoRedoAction (handleCanvasClick ?x)) with (isUndoRedoAction x);
         change (current (handleCanvasClick ?x)) with (current x);
         change (graph (handleCanvasClick ?x)) with (graph x));
    auto using undo_replay, redo_replay.
  - destruct confirmed; simpl; congruence.
  - destruct confirmed; simpl; congruence.
  - rewrite autoLayout_flag. congruence.
  - congruence.
  - congruence.
  - congruence.
  - unfold handleDeleteSelected.
    destruct (selectedNodeId s); [destruct (truthy _)|];
      destruct confirmed; simpl; try congruence; destruct (selectedLinkIndex s);
      simpl; congruence.
  - unfold handleNodeClick. destruct (interactionMode s); simpl; [congruence|].
    destruct (linkingSourceId s); simpl; [|congruence].
    case_bool_decide; simpl; [congruence|]. destruct (negb _); simpl; congruence.
  - congruence.
  - congruence.
  - unfold handleDragEnd. destruct (interactionMode s); simpl; congruence.
  - congruence.
  - congruence.
  - unfold addNode. destruct (isBlank _); simpl; congruence.
Qed.

Lemma step_settled e s :
  settled s → ∃ s', step e s = Some s' ∧ settled s'.
Proof.
  intros (Hwf & Hi & Hf & Hr).
  pose proof (handler_wf e s Hwf) as Hwh.
  exists (rendered (handler e s)). split; [by apply dispatch_wf|].
  split; [by apply rendered_wf|].
  split; [apply rendered_indexed; [done|by apply handler_indexed]|].
  split; [apply rendered_flag|].
  apply rendered_rest; [done|]. by apply handler_replay.
Qed.

Lemma run_settled es : ∀ s, settled s → ∃ s', run es s = Some s' ∧ settled s'.
Proof.
  induction es as [|e es IH]; intros s Hs.
  - by exists s.
  - destruct (step_settled e s Hs) as (s1 & H1 & Hs1).
    destruct (IH s1 Hs1) as (s' & Hr & Hs').
    exists s'. cbn [run]. by rewrite H1.
Qed.

Lemma mount_links_only (l : Link.t) (ls : list Link.t) :
  mount [] (l :: ls)
  = Some (mkState [] (l :: ls) "" latent move directed None None None
                  [Snapshot.mk [] (l :: ls)] 0 false).
Proof.
  unfold mount.
  assert (mountEffects (initialState [] (l :: ls))
          = (mkState [] (l :: ls) "" latent move directed None None None
                  [Snapshot.mk [] (l :: ls)] 0 false, true)) as -> by reflexivity.
  cbv beta iota. apply settle_still. right; right. reflexivity.
Qed.

(** Property X1.  Mounted without nodes the component seeds nothing: with
    no links either the history stays empty at index -1, and with links
    only the recording effect stores exactly one entry, at index 0. *)
Theorem mount_without_nodes :
  mount [] [] = Some (initialState [] [])
  ∧ ∀ l ls, mount [] (l :: ls)
            = Some (mkState [] (l :: ls) "" latent move directed None None None
                            [Snapshot.mk [] (l :: ls)] 0 false).
Proof. split; [reflexivity|apply mount_links_only]. Qed.

Lemma mount_settled ns ls : ∃ s, mount ns ls = Some s ∧ settled s.
Proof.
  destruct ns as [|n ns].
  - destruct ls as [|l ls].
    + exists (initialState [] []). split; [reflexivity|].
      split; [split; unfold HISTORY_LIMIT; simpl; lia|].
      split; [by left|]. split; [done|by left].
    + eexists. split; [apply mount_links_only|].
      split; [split; unfold HISTORY_LIMIT; simpl; lia|].
      split; [right; unfold inBounds; simpl; lia|]. split; [done|by right].
  - unfold mount. rewrite mountEffects_nonempty.
    change PASSES with (S 19 + 1)%nat.
    assert (Hne : Snapshot.mk (n :: ns) ls ≠ Snapshot.mk [] []) by done.
    destruct (settle_fills (Snapshot.mk (n :: ns) ls) 19 1
      (mkState (n :: ns) ls "" latent move directed None None None
             [Snapshot.mk (n :: ns) ls] 1 false)
      eq_refl (le_n 1) eq_refl Hne eq_refl eq_refl eq_refl 1%nat)
      as (s & Hs & Hg & Hh & Hi).
    exists s. split; [done|].
    assert (Hlen : length (history s) = 20%nat) by (by rewrite Hh, length_replicate).
    split; [split; unfold HISTORY_LIMIT; lia|].
    split; [right; unfold inBounds; lia|].
    split; [by eapply settle_flag|]. right.
    unfold current. rewrite Hh, Hi, Hg. reflexivity.
Qed.

(** Property X2.  Whatever the props at mounting and whatever events
    follow, the render loop comes to rest after every event, and in the
    state it rests in the history has at most [HISTORY_LIMIT] entries, the
    index designates an entry (or is -1 with an empty history), no replay
    is pending, and the live graph is the entry at the index unless the
    graph is empty. *)
Theorem reachable_states_settled (ns : list Node.t) (ls : list Link.t) (es : list Event) :
  ∃ s0 s, mount ns ls = Some s0 ∧ run es s0 = Some s ∧ settled s.
Proof.
  destruct (mount_settled ns ls) as (s0 & H0 & Hs0).
  destruct (run_settled es s0 Hs0) as (s & Hr & Hs).
  by exists s0, s.
Qed.

(** ** Undo and redo as toolbar events *)

Lemma undo_history s : history (undo s) = history s.
Proof. unfold undo. destruct (_ <? _); [destruct (at_index _ _)|]; done. Qed.

Lemma redo_history s : history (redo s) = history s.
Proof. unfold redo. destruct (_ <? _); [destruct (at_index _ _)|]; done. Qed.

Lemma undo_current s :
  consistent s → current (undo s) = Some (graph (undo s)).
Proof.
  intros (Hwf & Hc & Hf). destruct (isUndoRedoAction (undo s)) eqn:Hu.
  - by apply undo_replay.
  - unfold undo in *. destruct (0 <? historyIndex s); [|done].
    destruct (at_index _ _); simpl in Hu; discriminate.
Qed.

Lemma redo_current s :
  consistent s → current (redo s) = Some (graph (redo s)).
Proof.
  intros (Hwf & Hc & Hf). destruct (isUndoRedoAction (redo s)) eqn:Hu.
  - by apply redo_replay.
  - unfold redo in *. destruct (_ <? _); [|done].
    destruct (at_index _ _); simpl in Hu; discriminate.
Qed.

Lemma replay_step e s :
  consistent s → isReplay e →
  ∃ s', step e s = Some s' ∧ history s' = history s ∧ consistent s'.
Proof.
  intros Hs He.
  assert (Hh : wf (handler e s) ∧ history (handler e s) = history s
               ∧ current (handler e s) = Some (graph (handler e s))).
  { pose proof Hs as (Hwf & _).
    destruct He as [-> | ->]; simpl.
    - split; [apply (undo_wf s Hwf)|]. split; [apply undo_history|by apply undo_current].
    - split; [apply (redo_wf s Hwf)|]. split; [apply redo_history|by apply redo_current]. }
  destruct Hh as (Hwf & Hhist & Hcur).
  exists (setIsUndoRedoAction false (handler e s)).
  split; [apply settle_still; auto|]. split; [done|].
  split; [done|]. split; [done|done].
Qed.

(** Property X3.  From a state whose live graph is the current entry, any
    sequence of clicks on the undo and redo buttons leaves the history
    array as it is, and the live graph is again the entry at the index. *)
Theorem undo_redo_keep_history (es : list Event) (s : State) :
  consistent s → Forall isReplay es →
  ∃ s', run es s = Some s' ∧ history s' = history s ∧ consistent s'.
Proof.
  revert s. induction es as [|e es IH]; intros s Hs Hes.
  - by exists s.
  - apply Forall_cons in Hes as [He Hes].
    destruct (replay_step e s Hs He) as (s1 & H1 & Hh1 & Hs1).
    destruct (IH s1 Hs1 Hes) as (s' & Hr & Hh & Hs').
    exists s'. cbn [run]. rewrite H1. split; [done|]. split; [congruence|done].
Qed.

Lemma undo_redo_keep_history_witness :
  ∃ s', run [EvUndo; EvUndo; EvRedo; EvUndo; EvUndo] fullState = Some s'
        ∧ history s' = history fullState ∧ consistent s'.
Proof.
  apply undo_redo_keep_history.
  - split; [split; unfold HISTORY_LIMIT; simpl; lia|]. split; reflexivity.
  - repeat constructor; by (left + right).
Defined.

(** ** A recorded edit drops what could be redone *)

Lemma consistent_index s : consistent s → 0 ≤ historyIndex s.
Proof.
  intros (_ & Hc & _). unfold current in Hc. apply at_index_Some in Hc. lia.
Qed.

Lemma setIsUndoRedoAction_id s :
  isUndoRedoAction s = false → setIsUndoRedoAction false s = s.
Proof. destruct s. simpl. by intros ->. Qed.

(** Property X4.  A recorded edit drops what could be redone: afterwards
    the index is on the last entry, that entry is the new graph and redo
    changes nothing.  Below the limit the history is the old one up to the
    old index followed by the new graph; at the limit the oldest entry is
    dropped instead. *)
Theorem edit_drops_redo_tail (s : State) (g : Snapshot.t) :
  consistent s → recordable (graph s) g →
  ∃ s1, dispatch (edit g) s = Some s1
        ∧ historyIndex s1 = Z.of_nat (length (history s1)) - 1
        ∧ current s1 = Some g
        ∧ dispatch redo s1 = Some s1
        ∧ (historyIndex s < HISTORY_LIMIT - 1 →
           history s1 = take (Z.to_nat (historyIndex s + 1)) (history s) ++ [g])
        ∧ (historyIndex s = HISTORY_LIMIT - 1 →
           history s1 = tail (history s) ++ [g]).
Proof.
  intros Hs [Hne Hdiff]. pose proof Hs as (Hwf & Hc & Hf).
  destruct (dispatch_edit_records s g Hwf Hf Hne) as (s1 & H1 & Hg & Hf1 & Hh & Hi).
  { rewrite Hc. intros [=]. by apply Hdiff. }
  pose proof (recorded_consistent s s1 g Hwf Hg Hf1 Hh Hi) as Hs1.
  pose proof (recorded_length s g Hwf) as Hlen. rewrite <- Hh in Hlen.
  exists s1. split; [done|]. split; [lia|].
  split; [destruct Hs1 as (_ & Hc1 & _); by rewrite Hc1, Hg|].
  split.
  - unfold dispatch.
    assert (redo s1 = s1) as ->.
    { unfold redo. destruct (Z.ltb_spec (historyIndex s1) (Z.of_nat (length (history s1)) - 1));
        [lia|done]. }
    rewrite settle_still; [by rewrite setIsUndoRedoAction_id|].
    right; right. by destruct Hs1 as (_ & Hc1 & _).
  - split; intros Hidx; rewrite Hh; unfold recorded, kept.
    + rewrite bool_decide_eq_false_2 by lia. done.
    + by rewrite bool_decide_eq_true_2.
Qed.

Lemma edit_drops_redo_tail_witness :
  ∃ s1, dispatch (edit gB) (mkState [nA] [] "" latent move directed None None None
                                    [gA; gB; gB] 0 false) = Some s1
        ∧ historyIndex s1 = Z.of_nat (length (history s1)) - 1
        ∧ current s1 = Some gB
        ∧ dispatch redo s1 = Some s1
        ∧ (0 < HISTORY_LIMIT - 1 → history s1 = [gA; gB])
        ∧ (0 = HISTORY_LIMIT - 1 → history s1 = [gB; gB; gB]).
Proof.
  apply (edit_drops_redo_tail
           (mkState [nA] [] "" latent move directed None None None [gA; gB; gB] 0 false) gB).
  - split; [split; unfold HISTORY_LIMIT; simpl; lia|]. split; reflexivity.
  - split; [done|]. vm_compute. intros [=].
Defined.

(** ** Auto layout can be undone *)

(** Property X5.  Auto layout on a non-empty model can be undone: from a
    state whose live graph is the current entry, the button sets the nodes
    to the layout and leaves the links, the result is the current entry,
    and one undo brings back the graph as it was. *)
Theorem autoLayout_undone (s : State) :
  consistent s → nodes s ≠ [] →
  ∃ s1 s2, step EvAutoLayout s = Some s1
           ∧ graph s1 = Snapshot.mk (layout (nodes s) (links s)) (links s)
           ∧ current s1 = Some (graph s1)
           ∧ step EvUndo s1 = Some s2
           ∧ graph s2 = graph s.
Proof.
  intros Hs Hne. pose proof Hs as (Hwf & Hc & Hf).
  pose proof (consistent_index s Hs) as H0.
  pose proof (autoLayout_history s Hwf Hne) as Hh.
  destruct (autoLayout_nodes s) as [Hn Hl].
  set (e := Snapshot.mk (layout (nodes s) (links s)) (links s)) in *.
  assert (Hi : historyIndex (autoLayout s) = Z.min (historyIndex s + 1) (HISTORY_LIMIT - 1)).
  { unfold autoLayout. rewrite map_cloneNode.
    destruct (_ && _) eqn:He; [|done]. exfalso.
    apply andb_true_iff in He as [H1 H2]. apply Nat.eqb_eq in H1, H2.
    destruct (nodes s) as [|n ns]; [done|].
    unfold refsWhere in H1, H2. simpl in H1, H2.
    unfold isLatent in H1. unfold isObserved in H2.
    destruct (Node.type n); simpl in *; discriminate. }
  set (s1 := setIsUndoRedoAction false (handleCanvasClick (autoLayout s))).
  assert (Hg1 : graph s1 = e) by (unfold graph, e; simpl; by rewrite Hn, Hl).
  assert (Hf1 : isUndoRedoAction s1 = false) by done.
  assert (Hh1 : history s1 = recorded s e) by apply Hh.
  assert (Hi1 : historyIndex s1 = Z.min (historyIndex s + 1) (HISTORY_LIMIT - 1)) by apply Hi.
  pose proof (recorded_consistent s s1 e Hwf Hg1 Hf1 Hh1 Hi1) as Hs1.
  destruct Hs1 as (Hwf1 & Hc1 & _).
  assert (Hpos : 0 < historyIndex s1) by (rewrite Hi1; unfold HISTORY_LIMIT; lia).
  assert (Hprev : at_index (history s1) (historyIndex s1 - 1) = Some (graph s)).
  { rewrite Hh1, Hi1.
    rewrite (recorded_lookup_old s e 1 Hwf) by (unfold HISTORY_LIMIT; lia).
    replace (historyIndex s - (1 - 1)) with (historyIndex s) by lia. exact Hc. }
  set (h2 := handleCanvasClick (undo s1)).
  assert (Hu : graph h2 = graph s ∧ isUndoRedoAction h2 = true).
  { unfold h2, undo. destruct (Z.ltb_spec 0 (historyIndex s1)); [|lia].
    rewrite Hprev. by destruct s. }
  exists s1, (setIsUndoRedoAction false h2).
  split.
  { unfold step, dispatch. apply settle_still. right; right.
    change (current s1 = Some (graph s1)). exact Hc1. }
  split; [done|]. split; [done|]. split.
  { unfold step, dispatch. apply settle_still. left. apply Hu. }
  apply Hu.
Qed.

Lemma autoLayout_undone_witness :
  ∃ s1 s2, step EvAutoLayout fullState = Some s1
           ∧ graph s1 = Snapshot.mk (layout (nodes fullState) (links fullState))
                                    (links fullState)
           ∧ current s1 = Some (graph s1)
           ∧ step EvUndo s1 = Some s2
           ∧ graph s2 = graph fullState.
Proof.
  apply autoLayout_undone.
  - split; [split; unfold HISTORY_LIMIT; simpl; lia|]. split; reflexivity.
  - done.
Defined.

(** ** Selection and link gesture state *)

Lemma recordEffect_view cl s : view (recordEffect cl s).1 = view s.
Proof.
  unfold recordEffect. destruct (negb _); [|done].
  destruct (_ || _); [|done]. destruct (differsFromCurrent cl); done.
Qed.

Lemma settle_view n : ∀ s s', settle n s = Some s' → view s' = view s.
Proof.
  induction n as [|n IH]; intros s s' H; [done|].
  cbn [settle] in H. pose proof (recordEffect_view s s) as Hv.
  destruct (recordEffect s s) as [s1 ch]. simpl in Hv.
  destruct ch; [rewrite <- Hv; by apply IH|]. by injection H as <-.
Qed.

Lemma coherent_view s s' : view s' = view s → coherent s → coherent s'.
Proof.
  unfold view, coherent. intros [= _ _ -> _ -> -> ->]. done.
Qed.

Lemma handler_coherent e s : coherent s → coherent (handler e s).
Proof.
  unfold coherent. intros (H1 & H2 & H3).
  destruct e; simpl;
    unfold createNewModel, loadModel, autoLayout, undo, redo, handleDeleteSelected,
      handleNodeClick, handleDragEnd, addNode;
    repeat case_match; simpl; intuition congruence.
Qed.

Lemma step_coherent e s s' : step e s = Some s' → coherent s → coherent s'.
Proof.
  intros Hs Hc. apply settle_view in Hs.
  apply (coherent_view _ _ Hs). by apply handler_coherent.
Qed.

Lemma run_coherent es : ∀ s s', run es s = Some s' → coherent s → coherent s'.
Proof.
  induction es as [|e es IH]; intros s s' Hr Hc.
  - by injection Hr as <-.
  - cbn [run] in Hr. destruct (step e s) as [s1|] eqn:H1; [|done].
    eapply IH; [done|]. by eapply step_coherent.
Qed.

Lemma mount_view ns ls s : mount ns ls = Some s → view s = view (initialState ns ls).
Proof.
  unfold mount, mountEffects, seedEffect.
  destruct (_ && _).
  - pose proof (recordEffect_view (initialState ns ls)
      (saveToHistory (historyIndex (initialState ns ls)) (nodes (initialState ns ls))
         (links (initialState ns ls)) (initialState ns ls))) as Hv.
    destruct (recordEffect _ _) as [s2 ch]. simpl in Hv.
    rewrite orb_true_l. intros H. apply settle_view in H. by rewrite H, Hv.
  - pose proof (recordEffect_view (initialState ns ls) (initialState ns ls)) as Hv.
    destruct (recordEffect _ _) as [s2 ch]. simpl in Hv.
    rewrite orb_false_l. destruct ch.
    + intros H. apply settle_view in H. by rewrite H, Hv.
    + by intros [= <-].
Qed.

(** Property X6.  In every state reached from mounting, never a node and a
    link are selected together, a link source is pending only in link
    mode, and a node is selected only in move mode. *)
Theorem reachable_states_coherent (ns : list Node.t) (ls : list Link.t) (es : list Event) :
  ∃ s0 s, mount ns ls = Some s0 ∧ run es s0 = Some s ∧ coherent s.
Proof.
  destruct (mount_settled ns ls) as (s0 & H0 & Hs0).
  destruct (run_settled es s0 Hs0) as (s & Hr & _).
  exists s0, s. split; [done|]. split; [done|].
  apply (run_coherent es s0 s Hr).
  apply (coherent_view (initialState ns ls)); [by apply mount_view|].
  split; [by left|]. split; done.
Qed.

(** ** Events whose guard is closed *)

Lemma idle_handler e s :
  wf s → idle e s = true →
  graph (handler e s) = graph s ∧ history (handler e s) = history s
  ∧ historyIndex (handler e s) = historyIndex s
  ∧ isUndoRedoAction (handler e s) = isUndoRedoAction s.
Proof.
  intros Hwf. destruct e; cbn [handler idle].
  - intros ->%negb_true_iff. done.
  - intros ->%negb_true_iff. done.
  - intros H%bool_decide_eq_true. unfold autoLayout. by rewrite H.
  - done.
  - done.
  - done.
  - intros H%bool_decide_eq_true. unfold undo.
    destruct (Z.ltb_spec 0 (historyIndex s)); [lia|done].
  - intros H%bool_decide_eq_true. unfold redo.
    destruct (Z.ltb_spec (historyIndex s) (Z.of_nat (length (history s)) - 1)); [lia|done].
  - intros [->%negb_true_iff|[H1%negb_true_iff H2%bool_decide_eq_true]%andb_true_iff]%orb_true_iff;
      unfold handleDeleteSelected.
    + destruct (selectedNodeId s); [destruct (truthy _)|]; try done;
        by destruct (selectedLinkIndex s).
    + rewrite H1, H2. by destruct (selectedNodeId s).
  - intros [[H%bool_decide_eq_true|H%bool_decide_eq_true]%orb_true_iff
            |H%bool_decide_eq_true]%orb_true_iff; unfold handleNodeClick; rewrite H.
    + done.
    + by destruct (interactionMode s).
    + destruct (interactionMode s); [done|]. by rewrite bool_decide_eq_true_2.
  - done.
  - done.
  - intros H%bool_decide_eq_true. unfold handleDragEnd. by rewrite H.
  - done.
  - done.
  - intros H. unfold addNode. by rewrite H.
Qed.

(** Property X7.  An event whose guard is closed changes neither the
    graph nor the history nor the index: a declined confirmation, auto
    layout without nodes, undo on the first entry, redo on the last,
    delete with nothing selected, a node click that selects, starts or
    cancels a gesture, a drop in link mode, adding a node with a blank
    label, and the events that only set the mode, the types, the label
    text or the selection. *)
Theorem idle_events_change_nothing (e : Event) (s : State) :
  settled s → idle e s = true →
  ∃ s', step e s = Some s'
        ∧ graph s' = graph s ∧ history s' = history s
        ∧ historyIndex s' = historyIndex s.
Proof.
  intros (Hwf & _ & Hf & Hr) Hi.
  destruct (idle_handler e s Hwf Hi) as (Hg & Hh & Hx & Hfl).
  exists (setIsUndoRedoAction false (handler e s)).
  split; [|done].
  apply settle_still. right. unfold current. rewrite Hg, Hh, Hx. exact Hr.
Qed.

Lemma idle_events_change_nothing_witness :
  ∃ s', step (EvDeleteSelected true) fullState = Some s'
        ∧ graph s' = graph fullState ∧ history s' = history fullState
        ∧ historyIndex s' = historyIndex fullState.
Proof.
  apply idle_events_change_nothing; [|reflexivity].
  split; [split; unfold HISTORY_LIMIT; simpl; lia|].
  split; [right; unfold inBounds; simpl; lia|]. split; [reflexivity|by right].
Defined.

(** ** Deleting a link *)

Lemma filterFrom_true {A} (p : A → nat → bool) (l : list A) : ∀ k,
  (∀ v i, (k ≤ i)%nat → p v i = true) → filterFrom k p l = l.
Proof.
  induction l as [|v l IH]; intros k Hp; [done|].
  cbn [filterFrom]. rewrite Hp by lia. f_equal. apply IH. intros w i Hi. apply Hp. lia.
Qed.

Lemma filterFrom_delete {A} (l : list A) : ∀ (k n m : nat),
  m = (k + n)%nat →
  filterFrom k (λ _ i, negb (Nat.eqb i m)) l = take n l ++ drop (S n) l.
Proof.
  induction l as [|v l IH]; intros k n m ->; [by destruct n|].
  cbn [filterFrom]. destruct n as [|n].
  - rewrite Nat.add_0_r, Nat.eqb_refl. simpl. rewrite drop_0.
    apply filterFrom_true. intros _ i Hi. apply negb_true_iff, Nat.eqb_neq. lia.
  - destruct (Nat.eqb_spec k (k + S n)) as [Hk|_]; [lia|]. simpl.
    f_equal. apply IH. lia.
Qed.

Lemma rendered_view s : view (rendered s) = view s.
Proof. apply recordEffect_view. Qed.

(** Property X8.  A click on the link at position [i] followed by a
    confirmed delete removes exactly that link: the links before and after
    it stay in order, the nodes stay, and the selection is cleared.  With
    [i] past the end no link is removed. *)
Theorem link_click_then_delete (i : nat) (s : State) :
  wf s →
  ∃ s', run [EvLinkClick i; EvDeleteSelected true] s = Some s'
        ∧ nodes s' = nodes s
        ∧ links s' = take i (links s) ++ drop (S i) (links s)
        ∧ ((length (links s) ≤ i)%nat → links s' = links s)
        ∧ selectedNodeId s' = None ∧ selectedLinkIndex s' = None.
Proof.
  intros Hwf.
  set (s1 := rendered (handler (EvLinkClick i) s)).
  assert (H1 : step (EvLinkClick i) s = Some s1) by by apply step_rendered.
  assert (Hwf1 : wf s1) by (apply rendered_wf; by apply handler_wf).
  set (s2 := rendered (handler (EvDeleteSelected true) s1)).
  assert (H2 : step (EvDeleteSelected true) s1 = Some s2) by by apply step_rendered.
  assert (Hv1 : view s1 = view (handleLinkClick i s)) by apply rendered_view.
  injection Hv1 as _ _ _ _ _ Hsel Hidx. simpl in Hsel, Hidx.
  destruct (rendered_graph (handler (EvLinkClick i) s)) as [Hn1 Hl1].
  change (nodes s1 = nodes s) in Hn1. change (links s1 = links s) in Hl1.
  assert (Hh : handler (EvDeleteSelected true) s1
               = handleCanvasClick
                   (s1 |> setLinks (filterIndexed (λ _ j, negb (Nat.eqb j i)) (links s1))
                       |> setSelectedLinkIndex None)).
  { cbn [handler]. unfold handleDeleteSelected. by rewrite Hsel, Hidx. }
  destruct (rendered_graph (handler (EvDeleteSelected true) s1)) as [Hn2 Hl2].
  pose proof (rendered_view (handler (EvDeleteSelected true) s1)) as Hv2.
  fold s2 in Hn2, Hl2, Hv2. rewrite Hh in Hn2, Hl2, Hv2.
  injection Hv2 as _ _ _ _ _ Hsel2 Hidx2. simpl in Hn2, Hl2, Hsel2, Hidx2.
  assert (Hl : links s2 = take i (links s) ++ drop (S i) (links s)).
  { rewrite Hl2, Hl1. unfold filterIndexed. by apply filterFrom_delete. }
  exists s2. split; [cbn [run]; by rewrite H1, H2|].
  split; [congruence|]. split; [done|]. split; [|done].
  intros Hi. rewrite Hl, take_ge, drop_ge by lia. apply app_nil_r.
Qed.

Lemma link_click_then_delete_witness :
  ∃ s', run [EvLinkClick 0; EvDeleteSelected true] (initialState (Snapshot.nodes gB) (Snapshot.links gB))
        = Some s'
        ∧ nodes s' = Snapshot.nodes gB
        ∧ links s' = []
        ∧ ((1 ≤ 0)%nat → links s' = Snapshot.links gB)
        ∧ selectedNodeId s' = None ∧ selectedLinkIndex s' = None.
Proof.
  apply (link_click_then_delete 0 (initialState (Snapshot.nodes gB) (Snapshot.links gB))).
  split; unfold HISTORY_LIMIT; simpl; lia.
Defined.

(** ** No dangling links *)

Lemma ids_frames h h' : frames h = frames h' → ids h = ids h'.
Proof.
  intros H. unfold ids.
  assert (∀ l : list Node.t, Node.id <$> l = (λ f, f.1.1) <$> frames l) as E.
  { intros l. unfold frames. rewrite <- list_fmap_compose. done. }
  by rewrite !E, H.
Qed.

Lemma joins_ids ns ns' l : ids ns = ids ns' → joins ns l → joins ns' l.
Proof. unfold joins. by intros ->. Qed.

Lemma sound_ids ns ns' ls : ids ns = ids ns' → sound (Snapshot.mk ns ls) → sound (Snapshot.mk ns' ls).
Proof.
  intros H Hs. unfold sound in *. simpl in *.
  eapply Forall_impl; [exact Hs|]. intros l. by apply joins_ids.
Qed.

Lemma kept_sound s : Forall sound (history s) → Forall sound (kept s).
Proof.
  intros H. unfold kept. case_bool_decide.
  - destruct (history s); [done|]. by apply Forall_cons in H as [_ H].
  - by apply Forall_take.
Qed.

Lemma recorded_sound s g : Forall sound (history s) → sound g → Forall sound (recorded s g).
Proof.
  intros H Hg. unfold recorded. apply Forall_app. split; [by apply kept_sound|].
  by apply Forall_singleton.
Qed.

Lemma rendered_sound h : wf h → soundState h → soundState (rendered h).
Proof.
  intros Hwf [Hg Hh]. destruct (rendered_cases h) as [(-> & _)|(-> & _)]; [done|].
  split; [done|].
  destruct (saveToHistory_history (nodes h) (links h) h Hwf) as [E _].
  change (Forall sound (history (saveToHistory (historyIndex h) (nodes h) (links h) h))).
  rewrite E. by apply recorded_sound.
Qed.

Lemma lookup_sound s i p :
  Forall sound (history s) → at_index (history s) i = Some p → sound p.
Proof.
  intros H Hp. apply at_index_Some in Hp as [_ Hp].
  by apply (Forall_lookup_1 _ _ _ _ H Hp).
Qed.

Lemma undo_sound s : soundState s → soundState (undo s).
Proof.
  intros [Hg Hh]. unfold undo. destruct (_ <? _); [|done].
  destruct (at_index _ _) as [p|] eqn:Hp; [|done].
  split; [|done]. pose proof (lookup_sound _ _ _ Hh Hp). by destruct p.
Qed.

Lemma redo_sound s : soundState s → soundState (redo s).
Proof.
  intros [Hg Hh]. unfold redo. destruct (_ <? _); [|done].
  destruct (at_index _ _) as [p|] eqn:Hp; [|done].
  split; [|done]. pose proof (lookup_sound _ _ _ Hh Hp). by destruct p.
Qed.

Lemma autoLayout_sound s : wf s → soundState s → soundState (autoLayout s).
Proof.
  intros Hwf [Hg Hh]. unfold autoLayout. destruct (_ && _); [done|].
  assert (Hl : sound (Snapshot.mk (layout (nodes s) (links s)) (links s))).
  { apply (sound_ids (nodes s)); [|done]. symmetry. apply ids_frames, layout_frames. }
  split; [done|].
  destruct (saveToHistory_history (layout (nodes s) (links s)) (links s)
              (setNodes (layout (nodes s) (links s)) s) Hwf) as [E _].
  simpl in E. simpl. rewrite E. by apply recorded_sound.
Qed.

Lemma delete_sound c s : soundState s → soundState (handleDeleteSelected c s).
Proof.
  intros [Hg Hh].
  assert (Hlink : ∀ idx, sound (Snapshot.mk (nodes s)
            (filterIndexed (λ _ i, negb (Nat.eqb i idx)) (links s)))).
  { intros idx. unfold sound. simpl. apply Forall_forall. intros l Hl.
    apply filterFrom_elem in Hl. unfold sound in Hg. simpl in Hg.
    by apply (proj1 (Forall_forall _ _) Hg). }
  unfold handleDeleteSelected.
  destruct (selectedNodeId s) as [sel|].
  - destruct (truthy (Some sel)).
    + destruct c; [|done]. split; [|done].
      unfold sound, graph. simpl. apply Forall_forall. intros l Hl.
      apply list_elem_of_In, filter_In in Hl as [Hl Hk]. apply list_elem_of_In in Hl.
      apply andb_true_iff in Hk as [H1%negb_true_iff%bool_decide_eq_false
                                      H2%negb_true_iff%bool_decide_eq_false].
      unfold sound in Hg. simpl in Hg.
      destruct (proj1 (Forall_forall _ _) Hg l Hl) as (Hs & Ht & Hne).
      assert (∀ i, i ≠ sel → i ∈ ids (nodes s) →
                i ∈ ids (List.filter (λ n, negb (bool_decide (Node.id n = sel))) (nodes s))) as K.
      { intros i Hi (n & -> & Hn)%list_elem_of_fmap. apply list_elem_of_fmap.
        exists n. split; [done|]. apply list_elem_of_In, filter_In.
        split; [by apply list_elem_of_In|]. by apply negb_true_iff, bool_decide_eq_false. }
      split; [by apply K|]. split; [by apply K|done].
    + destruct (selectedLinkIndex s); [|done]. destruct c; [|done]. split; [apply Hlink|done].
  - destruct (selectedLinkIndex s); [|done]. destruct c; [|done]. split; [apply Hlink|done].
Qed.

Lemma nodeClick_sound id s :
  soundState s → admissible (EvNodeClick id) s → soundState (handleNodeClick id s).
Proof.
  intros [Hg Hh] [Hid Hsrc]. unfold handleNodeClick.
  destruct (interactionMode s); [done|].
  destruct (linkingSourceId s) as [src|]; [|done].
  case_bool_decide as Hne; [done|]. simpl.
  destruct (negb (linkExists _ _ _ _)); [|done].
  split; [|done]. unfold sound, graph. simpl. apply Forall_app. split; [done|].
  apply Forall_singleton. split; [by apply Hsrc|]. split; done.
Qed.

Lemma dragEnd_sound n px py s : soundState s → soundState (handleDragEnd n px py s).
Proof.
  intros [Hg Hh]. unfold handleDragEnd. destruct (interactionMode s); [|done].
  split; [|done]. unfold graph. simpl.
  apply (sound_ids (nodes s)); [|done].
  unfold ids. rewrite <- list_fmap_compose. apply list_fmap_ext.
  intros i x _. simpl. by case_bool_decide.
Qed.

Lemma addNode_sound now rx ry s : soundState s → soundState (addNode now rx ry s).
Proof.
  intros [Hg Hh]. unfold addNode. destruct (isBlank _); [done|].
  split; [|done]. unfold sound, graph. simpl. unfold sound in Hg. simpl in Hg.
  eapply Forall_impl; [exact Hg|]. intros l (Hs & Ht & Hne).
  unfold joins, ids. rewrite fmap_app.
  split; [apply elem_of_app; by left|]. split; [apply elem_of_app; by left|done].
Qed.

Lemma handler_sound e s :
  wf s → soundState s → admissible e s → soundState (handler e s).
Proof.
  intros Hwf Hs Ha. destruct e; cbn [handler];
    try (change (soundState (handleCanvasClick ?x)) with (soundState x)).
  - destruct confirmed; [|done]. split; [by constructor|].
    apply Forall_singleton. by constructor.
  - destruct confirmed; [|done]. simpl in Ha. split; [done|]. by apply Forall_singleton.
  - by apply autoLayout_sound.
  - done.
  - done.
  - done.
  - by apply undo_sound.
  - by apply redo_sound.
  - by apply delete_sound.
  - by apply nodeClick_sound.
  - done.
  - done.
  - by apply dragEnd_sound.
  - done.
  - done.
  - by apply addNode_sound.
Qed.

Lemma step_sound e s :
  wf s → soundState s → admissible e s →
  ∃ s', step e s = Some s' ∧ wf s' ∧ soundState s'.
Proof.
  intros Hwf Hs Ha. exists (rendered (handler e s)).
  pose proof (handler_wf e s Hwf) as Hwh.
  split; [by apply step_rendered|]. split; [by apply rendered_wf|].
  apply rendered_sound; [done|]. by apply handler_sound.
Qed.

Lemma run_sound (es : list Event) (s : State) :
  wf s → soundState s → admissibleRun es s →
  ∃ s', run es s = Some s' ∧ soundState s'.
Proof.
  revert s. induction es as [|e es IH]; intros s Hwf Hs Ha.
  - by exists s.
  - destruct Ha as [Ha Hrest].
    destruct (step_sound e s Hwf Hs Ha) as (s1 & H1 & Hwf1 & Hs1).
    rewrite H1 in Hrest.
    destruct (IH s1 Hwf1 Hs1 Hrest) as (s' & Hr & Hs').
    exists s'. cbn [run]. by rewrite H1.
Qed.

(** The pending source of a link gesture is not cleared when the nodes
    are replaced: a link from a node that no longer exists is stored. *)
Example pending_source_outlives_nodes :
  ∃ s, run [EvLinkMode; EvNodeClick "a"; EvNewModel true;
            EvTypeLabel "B"; EvAddNode "2" 0 0; EvNodeClick "n2"]
           (initialState [nA] []) = Some s
       ∧ links s = [Link.mk "a" "n2" directed]
       ∧ ids (nodes s) = ["n2"].
Proof. eexists. split; [vm_compute; reflexivity|]. split; reflexivity. Qed.

(** ** Dragging *)

Lemma findNode_map (f : Node.t → Node.t) (ns : list Node.t) (i : string) :
  (∀ n, Node.id (f n) = Node.id n) →
  findNode (map f ns) i = f <$> findNode ns i.
Proof.
  intros Hf. unfold findNode. induction ns as [|n ns IH]; [done|].
  simpl. rewrite Hf. by destruct (bool_decide (Node.id n = i)).
Qed.

Lemma findNode_id ns i n : findNode ns i = Some n → Node.id n = i.
Proof.
  unfold findNode. intros H. apply find_some in H as [_ H].
  by apply bool_decide_eq_true in H.
Qed.

Lemma dropped_nodes (n : Node.t) (px py : Z) (s : State) :
  ∃ f : Node.t → Node.t,
    nodes (handleDragEnd n px py s) = map f (nodes s)
    ∧ (∀ m, Node.id (f m) = Node.id m)
    ∧ (∀ m, Node.id m ≠ Node.id n → f m = m)
    ∧ (∀ m m', Node.id m = Node.id n → Node.id m' = Node.id n →
         interactionMode s = move →
         Node.x (f m) = Node.x (f m') ∧ Node.y (f m) = Node.y (f m')).
Proof.
  unfold handleDragEnd. destruct (interactionMode s).
  - exists (λ m, if bool_decide (Node.id m = Node.id n)
                 then Node.mk (Node.id m) (Node.label m) (Node.type m)
                        (px - (if bool_decide (Node.type n = latent) then 50 else 60))
                        (py - 25)
                 else m).
    split; [reflexivity|]. split; [|split].
    + intros m. by case_bool_decide.
    + intros m Hm. cbv beta.
      by rewrite (bool_decide_eq_false_2 (Node.id m = Node.id n) Hm).
    + intros m m' Hm Hm' _. cbv beta.
      by rewrite (bool_decide_eq_true_2 (Node.id m = Node.id n) Hm),
                 (bool_decide_eq_true_2 (Node.id m' = Node.id n) Hm').
  - exists (λ m, m). split; [by rewrite map_id|]. done.
Qed.

(** Property X9.  Dropping the node [n] moves at most the nodes with its
    id, and all of them to one point: a node with another id is found as
    before, a link that does not touch [n] keeps its line, the links
    drawn are the same as before, and in link mode nothing moves. *)
Theorem drop_keeps_other_links (n : Node.t) (px py : Z) (s : State) :
  let dropped := nodes (handleDragEnd n px py s) in
  (∀ i, i ≠ Node.id n → findNode dropped i = findNode (nodes s) i)
  ∧ (∀ l, Link.source l ≠ Node.id n → Link.target l ≠ Node.id n →
       linkLine dropped l = linkLine (nodes s) l)
  ∧ (∀ l, is_Some (linkLine dropped l) ↔ is_Some (linkLine (nodes s) l))
  ∧ (∀ m m', m ∈ dropped → m' ∈ dropped →
       Node.id m = Node.id n → Node.id m' = Node.id n → interactionMode s = move →
       Node.x m = Node.x m' ∧ Node.y m = Node.y m')
  ∧ (interactionMode s = link → handleDragEnd n px py s = s).
Proof.
  intros dropped.
  destruct (dropped_nodes n px py s) as (f & Hmap & Hid & Hother & Hsame).
  fold dropped in Hmap.
  assert (Hfind : ∀ i, findNode dropped i = f <$> findNode (nodes s) i).
  { intros i. rewrite Hmap. by apply findNode_map. }
  assert (Hkeep : ∀ i, i ≠ Node.id n → findNode dropped i = findNode (nodes s) i).
  { intros i Hi. rewrite Hfind.
    destruct (findNode (nodes s) i) as [m|] eqn:Hf; [|done]. simpl.
    apply findNode_id in Hf. rewrite Hother; [done|congruence]. }
  split; [done|]. split; [|split; [|split]].
  - intros l H1 H2. unfold linkLine. by rewrite !Hkeep.
  - intros l. unfold linkLine. rewrite !Hfind.
    destruct (findNode (nodes s) (Link.source l)), (findNode (nodes s) (Link.target l));
      simpl; split; intros [x Hx]; done || by eexists.
  - intros m m' Hm Hm' Hi Hi' Hmode. rewrite Hmap in Hm, Hm'.
    apply list_elem_of_fmap in Hm as (m0 & -> & _).
    apply list_elem_of_fmap in Hm' as (m0' & -> & _).
    rewrite Hid in Hi, Hi'. by apply Hsame.
  - intros Hmode. unfold handleDragEnd. by rewrite Hmode.
Qed.

(** ** Which links are drawn *)

Lemma findNode_is_Some ns i : is_Some (findNode ns i) ↔ i ∈ ids ns.
Proof.
  unfold findNode, ids. induction ns as [|n ns IH]; simpl.
  - split; [by intros [x Hx]|by intros H%elem_of_nil].
  - case_bool_decide as Hn.
    + split; [intros _; subst; by left|by eexists].
    + rewrite IH. split; [by right|]. intros H%elem_of_cons. by destruct H.
Qed.

Lemma link_drawn_iff_ends_exist (ns : list Node.t) (l : Link.t) :
  is_Some (linkLine ns l) ↔ Link.source l ∈ ids ns ∧ Link.target l ∈ ids ns.
Proof.
  rewrite <- !findNode_is_Some. unfold linkLine.
  destruct (findNode ns (Link.source l)), (findNode ns (Link.target l));
    split; try (intros [x Hx]; done); try (intros [[x Hx] [y Hy]]; done);
    intros; try split; by eexists.
Qed.

(** ** The Mermaid text and the positions *)

Lemma forEachFrom_frames {St} (F : Node.t → nat → St → St) :
  (∀ n n' i st, frame n = frame n' → F n i st = F n' i st) →
  ∀ ns ns' i st, frames ns = frames ns' → forEachFrom i F ns st = forEachFrom i F ns' st.
Proof.
  intros HF. induction ns as [|n ns IH]; intros [|n' ns'] i st Hfr; try done.
  unfold frames in Hfr. rewrite !fmap_cons in Hfr.
  apply (inj2 cons) in Hfr as [Hn Hrest]. cbn [forEachFrom].
  rewrite (HF n n' i st Hn). by apply IH.
Qed.

Lemma mermaidSyntax_frames d ns ns' ls :
  frames ns = frames ns' → mermaidSyntax d ns ls = mermaidSyntax d ns' ls.
Proof.
  intros Hfr. unfold mermaidSyntax, forEach. f_equal.
  apply forEachFrom_frames; [|done].
  intros n n' i st [= Hi Hl Ht]. unfold displayLabel. by rewrite Hi, Hl, Ht.
Qed.

Lemma handleDragEnd_frames n px py s :
  frames (nodes (handleDragEnd n px py s)) = frames (nodes s)
  ∧ links (handleDragEnd n px py s) = links s.
Proof.
  unfold handleDragEnd. destruct (interactionMode s); [|done].
  split; [|done]. simpl. unfold frames. rewrite <- list_fmap_compose.
  apply list_fmap_ext. intros i m _. simpl. by case_bool_decide.
Qed.

(** Property X10.  The Mermaid text depends on the ids, labels and types
    of the nodes and on the links, not on the positions: auto layout and
    a drop leave it unchanged. *)
Theorem mermaid_ignores_positions (isDark : bool) (s : State)
    (n : Node.t) (px py : Z) :
  mermaidSyntax isDark (nodes (autoLayout s)) (links (autoLayout s))
  = mermaidSyntax isDark (nodes s) (links s)
  ∧ mermaidSyntax isDark (nodes (handleDragEnd n px py s)) (links (handleDragEnd n px py s))
    = mermaidSyntax isDark (nodes s) (links s).
Proof.
  split.
  - destruct (autoLayout_nodes s) as [-> ->].
    apply mermaidSyntax_frames, layout_frames.
  - destruct (handleDragEnd_frames n px py s) as [Hf ->].
    by apply mermaidSyntax_frames.
Qed.

(** ** Every stored link is drawn *)

(** Property X11.  From a graph and a history whose links all join two
    different existing nodes, every run of events keeps them so, and every
    link of the resulting graph is drawn; provided each stored model that
    is loaded is such a graph, each node click is on an existing node, and
    the pending source of a gesture still exists when the gesture is
    completed ([pending_source_outlives_nodes] shows what happens
    otherwise). *)
Theorem events_keep_links_drawn (es : list Event) (s : State) :
  wf s → soundState s → admissibleRun es s →
  ∃ s', run es s = Some s' ∧ soundState s'
        ∧ ∀ l, l ∈ links s' → is_Some (linkLine (nodes s') l).
Proof.
  intros Hwf Hs Ha. destruct (run_sound es s Hwf Hs Ha) as (s' & Hr & Hs').
  exists s'. split; [done|]. split; [done|].
  intros l Hl. apply link_drawn_iff_ends_exist.
  destruct Hs' as [Hg _]. unfold sound in Hg. simpl in Hg.
  destruct (proj1 (Forall_forall _ _) Hg l Hl) as (H1 & H2 & _). done.
Qed.

Lemma events_keep_links_drawn_witness :
  ∃ s', run [EvLinkMode; EvNodeClick "b"; EvNodeClick "a"; EvUndo; EvAutoLayout]
            (initialState (Snapshot.nodes gB) (Snapshot.links gB)) = Some s'
        ∧ soundState s'
        ∧ ∀ l, l ∈ links s' → is_Some (linkLine (nodes s') l).
Proof.
  apply events_keep_links_drawn.
  - split; unfold HISTORY_LIMIT; simpl; lia.
  - split; [|by constructor].
    apply Forall_singleton. split; [by repeat constructor|].
    split; [by repeat constructor|done].
  - vm_compute. repeat split; try (by repeat constructor).
    all: intros src [=]; subst; by repeat constructor.
Defined.

(** ** The two columns of latent variables *)

Lemma placedAt_place h r x y :
  (r < length h)%nat → placedAt (setY r y (setX r x h)) r x y.
Proof.
  intros Hr. destruct (lookup_lt_is_Some_2 h r Hr) as [n Hn].
  unfold placedAt, setX, setY. rewrite !list_lookup_alter_eq, Hn. simpl.
  eexists. split; [reflexivity|]. by split.
Qed.

Lemma place_other h r x y q : q ≠ r → setY r y (setX r x h) !! q = h !! q.
Proof. intros Hq. unfold setX, setY. by rewrite !list_lookup_alter_ne. Qed.

Lemma place_length h r x y : length (setY r y (setX r x h)) = length h.
Proof. unfold setX, setY. by rewrite !length_alter. Qed.

Lemma exogenous_column (exo : list nat) : ∀ (i : nat) (h : list Node.t) (y : Z),
  NoDup exo → (∀ r, r ∈ exo → (r < length h)%nat) →
  let h' := (forEachFrom i (λ node (_ : nat) '(h, currentY),
                  (h |> setX node canvasPadding |> setY node currentY,
                   currentY + nodeGap)) exo (h, y)).1 in
  (∀ k r, exo !! k = Some r → placedAt h' r 100 (y + Z.of_nat k * 180))
  ∧ (∀ q, q ∉ exo → h' !! q = h !! q)
  ∧ length h' = length h.
Proof.
  induction exo as [|r exo IH]; intros i h y Hnd Hin; [done|].
  apply NoDup_cons in Hnd as [Hr Hnd].
  cbn [forEachFrom]. cbv zeta.
  destruct (IH (S i) (setY r y (setX r canvasPadding h)) (y + nodeGap) Hnd)
    as (Hk & Ho & Hl).
  { intros q Hq. rewrite place_length. apply Hin. by right. }
  split; [|split].
  - intros [|k] q Hq.
    + injection Hq as ->. destruct (placedAt_place h q canvasPadding y) as (n & Hn & Hx & Hy).
      { apply Hin. by left. }
      exists n. rewrite (Ho q Hr). split; [done|]. split; [done|]. lia.
    + destruct (Hk k q Hq) as (n & Hn & Hx & Hy). exists n.
      split; [done|]. split; [done|]. unfold nodeGap in Hy. lia.
  - intros q Hq. apply not_elem_of_cons in Hq as [Hqr Hq].
    rewrite (Ho q Hq). by apply place_other.
  - by rewrite Hl, place_length.
Qed.

Lemma endogenous_column (startY : Z) (endo : list nat) : ∀ (i : nat) (h : list Node.t),
  NoDup endo → (∀ r, r ∈ endo → (r < length h)%nat) →
  let h' := forEachFrom i (λ node i h,
             h |> setX node (canvasPadding + layerGap)
               |> setY node (startY + Z.of_nat i * nodeGap)) endo h in
  (∀ k r, endo !! k = Some r → placedAt h' r 450 (startY + Z.of_nat (i + k) * 180))
  ∧ (∀ q, q ∉ endo → h' !! q = h !! q)
  ∧ length h' = length h.
Proof.
  induction endo as [|r endo IH]; intros i h Hnd Hin; [done|].
  apply NoDup_cons in Hnd as [Hr Hnd].
  cbn [forEachFrom]. cbv zeta.
  destruct (IH (S i) (setY r (startY + Z.of_nat i * nodeGap)
                        (setX r (canvasPadding + layerGap) h)) Hnd)
    as (Hk & Ho & Hl).
  { intros q Hq. rewrite place_length. apply Hin. by right. }
  split; [|split].
  - intros [|k] q Hq.
    + injection Hq as ->.
      destruct (placedAt_place h q (canvasPadding + layerGap)
                  (startY + Z.of_nat i * nodeGap)) as (n & Hn & Hx & Hy).
      { apply Hin. by left. }
      exists n. rewrite (Ho q Hr). split; [done|]. split; [done|].
      rewrite Hy. unfold nodeGap. rewrite Nat.add_0_r. done.
    + destruct (Hk k q Hq) as (n & Hn & Hx & Hy). exists n.
      split; [done|]. split; [done|]. rewrite Hy. f_equal. f_equal. lia.
  - intros q Hq. apply not_elem_of_cons in Hq as [Hqr Hq].
    rewrite (Ho q Hq). by apply place_other.
  - by rewrite Hl, place_length.
Qed.

Lemma NoDup_refsWhere p h : NoDup (refsWhere p h).
Proof.
  unfold refsWhere. apply NoDup_ListNoDup, List.NoDup_filter, NoDup_ListNoDup, NoDup_seq.
Qed.

Lemma NoDup_List_filter {A} (f : A → bool) (l : list A) : NoDup l → NoDup (List.filter f l).
Proof. intros H. by apply NoDup_ListNoDup, List.NoDup_filter, NoDup_ListNoDup. Qed.

Lemma refsWhere_lt p h r : r ∈ refsWhere p h → (r < length h)%nat.
Proof. intros [H _]%refsWhere_elem. by apply lookup_lt_Some in H. Qed.

Lemma exogenous_not_endogenous h latents links r :
  let exo := List.filter (isExogenous h latents links) latents in
  r ∈ exo → r ∉ List.filter (isEndogenous h exo) latents.
Proof.
  intros exo Hr Hendo.
  apply list_elem_of_In, filter_In in Hendo as [_ He].
  unfold isEndogenous in He.
  destruct (List.find _ exo) eqn:Hf; [done|].
  apply list_elem_of_In in Hr.
  pose proof (find_none _ _ Hf r Hr) as Hn. simpl in Hn.
  by rewrite bool_decide_eq_true_2 in Hn.
Qed.

(** Property X12.  Auto layout puts every latent variable in exactly one
    of two columns: the [k]-th exogenous one at [(100, 100 + 180 k)], the
    [k]-th endogenous one at [(450, endoStartY + 180 k)]. *)
Theorem layout_latent_columns (ns : list Node.t) (links : list Link.t) :
  let latents := refsWhere isLatent ns in
  let exo := List.filter (isExogenous ns latents links) latents in
  let endo := List.filter (isEndogenous ns exo) latents in
  (∀ r, r ∈ latents ↔ (r ∈ exo ∧ r ∉ endo) ∨ (r ∈ endo ∧ r ∉ exo))
  ∧ (∀ k r, exo !! k = Some r →
       placedAt (layout ns links) r 100 (100 + Z.of_nat k * 180))
  ∧ (∀ k r, endo !! k = Some r →
       placedAt (layout ns links) r 450
         (endoStartY (length exo) (length endo) + Z.of_nat k * 180)).
Proof.
  intros latents exo endo.
  assert (Hdisj : ∀ r, r ∈ exo → r ∉ endo).
  { intros r. apply exogenous_not_endogenous. }
  assert (Hnd : NoDup latents) by apply NoDup_refsWhere.
  assert (Hexo : ∀ r, r ∈ exo → r ∈ latents) by (intros r; apply filter_elem).
  assert (Hendo : ∀ r, r ∈ endo → r ∈ latents) by (intros r; apply filter_elem).
  destruct (exogenous_column exo 0 ns canvasPadding) as (Hx1 & Hx2 & Hx3).
  { by apply NoDup_List_filter. }
  { intros r Hr. eapply refsWhere_lt. by apply Hexo. }
  set (h1 := placeExogenous exo ns).
  fold (forEach (A:=nat) (St:=list Node.t * Z)) in Hx1, Hx2, Hx3.
  change (forEachFrom 0 _ exo (ns, canvasPadding)).1 with h1 in Hx1, Hx2, Hx3.
  set (startY := endoStartY (length exo) (length endo)).
  destruct (endogenous_column startY endo 0 h1) as (Hn1 & Hn2 & Hn3).
  { by apply NoDup_List_filter. }
  { intros r Hr. rewrite Hx3. eapply refsWhere_lt. by apply Hendo. }
  set (h2 := placeEndogenous endo startY h1).
  change (forEachFrom 0 _ endo h1) with h2 in Hn1, Hn2, Hn3.
  assert (Hf2 : frames h2 = frames ns).
  { apply (placeEndogenous_below (λ _, True) ns); [|done].
    by apply (placeExogenous_below (λ _, True) ns). }
  assert (H6 : below (λ q, q ∈ refsWhere isObserved ns) h2 (layout ns links)).
  { unfold layout. rewrite map_cloneNode. cbv zeta.
    fold latents. fold exo. fold endo. fold h1. fold startY. fold h2.
    unfold forEach. apply (forEachFrom_ind (below _ h2)); [done|].
    intros lr j h3 Hlr Hb. apply placeObserved_below; [done|].
    intros q Hq.
    rewrite (connectedObs_frames h3 ns) in Hq by (rewrite (proj1 Hb); exact Hf2).
    by apply connectedObs_linked in Hq as [Hq _]. }
  assert (Hlat : ∀ r, r ∈ latents → layout ns links !! r = h2 !! r).
  { intros r Hr. apply (proj2 H6).
    apply refsWhere_elem in Hr as [_ Hr]. intros [_ Ho]%refsWhere_elem.
    unfold isLatent, isObserved in *.
    apply bool_decide_eq_true in Hr, Ho. congruence. }
  split; [|split].
  - intros r. split.
    + intros Hr. destruct (latent_placed ns links r Hr) as [He|He].
      * left. split; [done|by apply Hdisj].
      * right. split; [done|]. intros Hx. by apply (Hdisj r Hx).
    + intros [[H _]|[H _]]; auto.
  - intros k r Hk. assert (Hr : r ∈ exo) by by eapply list_elem_of_lookup_2.
    unfold placedAt. rewrite (Hlat r (Hexo r Hr)), (Hn2 r (Hdisj r Hr)).
    apply (Hx1 k r Hk).
  - intros k r Hk. assert (Hr : r ∈ endo) by by eapply list_elem_of_lookup_2.
    unfold placedAt. rewrite (Hlat r (Hendo r Hr)).
    apply (Hn1 k r Hk).
Qed.

(** ** The rows of observed variables *)

Lemma lookup_total_eq (h h' : list Node.t) r : h !! r = h' !! r → h !!! r = h' !!! r.
Proof. intros H. by rewrite !list_lookup_total_alt, H. Qed.

Lemma latent_not_observed ns r :
  r ∈ refsWhere isLatent ns → r ∉ refsWhere isObserved ns.
Proof.
  intros [_ Hr]%refsWhere_elem [_ Ho]%refsWhere_elem.
  unfold isLatent, isObserved in *. apply bool_decide_eq_true in Hr, Ho. congruence.
Qed.

Lemma placeObserved_rows ns links h2 lr h :
  let observed := refsWhere isObserved ns in
  lr ∈ refsWhere isLatent ns →
  frames h2 = frames ns →
  below (λ q, q ∈ observed) h2 h →
  let h' := placeObserved observed links lr h in
  below (λ q, q ∈ observed) h2 h'
  ∧ ∀ o, h' !! o = h !! o
         ∨ (Some o ∈ connectedObs ns observed links lr
            ∧ ∃ no, h' !! o = Some no ∧ Node.y no = Node.y (h2 !!! lr) + 120).
Proof.
  intros observed Hlr Hf2 Hb h'.
  assert (Hfr : frames h = frames ns) by (rewrite (proj1 Hb); exact Hf2).
  assert (Hc : connectedObs h observed links lr = connectedObs ns observed links lr)
    by by apply connectedObs_frames.
  unfold h', placeObserved. rewrite Hc.
  destruct (0 <? length _)%nat; [|split; [done|by left]].
  unfold forEach.
  apply (forEachFrom_ind (λ h', below (λ q, q ∈ observed) h2 h'
     ∧ ∀ o, h' !! o = h !! o
         ∨ (Some o ∈ connectedObs ns observed links lr
            ∧ ∃ no, h' !! o = Some no ∧ Node.y no = Node.y (h2 !!! lr) + 120))).
  { split; [done|by left]. }
  intros [o1|] j h1 Hv [Hb1 Hrows]; [|done].
  assert (Ho1 : o1 ∈ observed).
  { rewrite <- Hc in Hv. by apply connectedObs_linked in Hv as [Hv _]. }
  split; [apply below_setY; [apply below_setX|]; done|].
  intros o. destruct (decide (o = o1)) as [->|Hne].
  - right. split; [done|].
    assert (Hlt : (o1 < length h1)%nat).
    { rewrite (frames_length h1 h2 (proj1 Hb1)), (frames_length h2 ns Hf2).
      by eapply refsWhere_lt. }
    destruct (lookup_lt_is_Some_2 h1 o1 Hlt) as [n Hn].
    eexists. split.
    { unfold setX, setY. rewrite !list_lookup_alter_eq, Hn. reflexivity. }
    simpl. f_equal. f_equal. apply lookup_total_eq.
    unfold setX. rewrite list_lookup_alter_ne.
    + apply (proj2 Hb1). by apply latent_not_observed.
    + intros ->. by apply (latent_not_observed ns lr).
  - unfold setX, setY. rewrite !list_lookup_alter_ne by done. apply Hrows.
Qed.

(** Property X13.  Auto layout leaves an observed variable where it was or
    puts it 120 below a latent variable it is linked to. *)
Theorem layout_observed_rows (ns : list Node.t) (links : list Link.t) (o : nat) :
  o ∈ refsWhere isObserved ns →
  layout ns links !! o = ns !! o
  ∨ ∃ lr l nl no,
      lr ∈ refsWhere isLatent ns ∧ l ∈ links
      ∧ linked l (Node.id (ns !!! lr)) (Node.id (ns !!! o))
      ∧ layout ns links !! lr = Some nl ∧ layout ns links !! o = Some no
      ∧ Node.y no = Node.y nl + 120.
Proof.
  intros Ho.
  set (observed := refsWhere isObserved ns).
  set (latents := refsWhere isLatent ns).
  set (exo := List.filter (isExogenous ns latents links) latents).
  set (endo := List.filter (isEndogenous ns exo) latents).
  set (h2 := placeEndogenous endo (endoStartY (length exo) (length endo))
               (placeExogenous exo ns)).
  assert (Hb2 : below (λ q, q ∈ latents) ns h2).
  { apply placeEndogenous_below; [apply placeExogenous_below; [done|]|];
      intros r; apply filter_elem. }
  pose proof (proj1 Hb2) as Hf2.
  assert (Hloop : below (λ q, q ∈ observed) h2 (layout ns links)
    ∧ (layout ns links !! o = h2 !! o
       ∨ ∃ lr, lr ∈ latents ∧ Some o ∈ connectedObs ns observed links lr
               ∧ ∃ no, layout ns links !! o = Some no
                       ∧ Node.y no = Node.y (h2 !!! lr) + 120)).
  { unfold layout. rewrite map_cloneNode. cbv zeta.
    fold latents observed. fold exo. fold endo. fold h2.
    unfold forEach.
    apply (forEachFrom_ind (λ h, below (λ q, q ∈ observed) h2 h
      ∧ (h !! o = h2 !! o
         ∨ ∃ lr, lr ∈ latents ∧ Some o ∈ connectedObs ns observed links lr
                 ∧ ∃ no, h !! o = Some no ∧ Node.y no = Node.y (h2 !!! lr) + 120))).
    { split; [done|by left]. }
    intros lr j h Hlr [Hb Hrow]. cbv beta.
    pose proof (placeObserved_rows ns links h2 lr h Hlr Hf2 Hb) as Hp.
    cbv zeta in Hp. fold observed in Hp. destruct Hp as [Hb' Hrows].
    split; [done|]. destruct (Hrows o) as [Hsame|[Hin Hy]].
    - rewrite Hsame. exact Hrow.
    - right. by exists lr. }
  destruct Hloop as [Hb6 [Hsame|(lr & Hlr & Hin & no & Hno & Hy)]].
  - left. rewrite Hsame. apply (proj2 Hb2). by intros H%latent_not_observed.
  - right. apply connectedObs_linked in Hin as [_ (l & Hl & Hlink)].
    assert (Hlt : (lr < length (layout ns links))%nat).
    { rewrite (frames_length _ _ (layout_frames ns links)). by eapply refsWhere_lt. }
    destruct (lookup_lt_is_Some_2 _ _ Hlt) as [nl Hnl].
    exists lr, l, nl, no. repeat (split; [done|]).
    rewrite Hy. f_equal. f_equal.
    assert (E : layout ns links !! lr = h2 !! lr).
    { apply (proj2 Hb6). by apply latent_not_observed. }
    rewrite <- (lookup_total_eq _ _ lr E), list_lookup_total_alt, Hnl. done.
Qed.

Lemma layout_observed_rows_witness :
  layout (nodes twoFactors) (links twoFactors) !! 4%nat = nodes twoFactors !! 4%nat
  ∨ ∃ lr l nl no,
      lr ∈ refsWhere isLatent (nodes twoFactors) ∧ l ∈ links twoFactors
      ∧ linked l (Node.id (nodes twoFactors !!! lr)) (Node.id (nodes twoFactors !!! 4%nat))
      ∧ layout (nodes twoFactors) (links twoFactors) !! lr = Some nl
      ∧ layout (nodes twoFactors) (links twoFactors) !! 4%nat = Some no
      ∧ Node.y no = Node.y nl + 120.
Proof.
  apply layout_observed_rows. vm_compute. by repeat constructor.
Defined.

(** ** The library of saved models *)

(** Property X15.  A model saved under a non-empty name is the last of the
    saved models, whether or not the write to the storage succeeds, and
    loading it later, whatever the canvas holds by then, brings back the
    graph as it was when saved, with a history of that one graph at
    index 0. *)
Theorem save_then_load_restores (name now : string) (date : Z) (written : bool)
    (s later : State) (lib : Library) :
  name ≠ "" → wf later →
  ∃ m s',
    last (savedModels (saveCurrentModel (Some name) now date written s lib)) = Some m
    ∧ step (EvLoadModel (Saved.model m) true) later = Some s'
    ∧ graph s' = graph s
    ∧ history s' = [graph s] ∧ historyIndex s' = 0.
Proof.
  intros Hname Hwf.
  set (m := Saved.mk (SavedModel.mk now name (nodes s) (links s)) date).
  exists m, (setIsUndoRedoAction false (handler (EvLoadModel (Saved.model m) true) later)).
  split.
  { unfold saveCurrentModel. destruct name; [done|]. simpl. apply last_snoc. }
  split; [|done].
  unfold step, dispatch. apply settle_still. right; right. reflexivity.
Qed.

Lemma save_then_load_restores_witness :
  ∃ m s',
    last (savedModels (saveCurrentModel (Some "M") "7" 7 false twoFactors
                         (mkLibrary [] Untouched))) = Some m
    ∧ step (EvLoadModel (Saved.model m) true) fullState = Some s'
    ∧ graph s' = graph twoFactors
    ∧ history s' = [graph twoFactors] ∧ historyIndex s' = 0.
Proof.
  apply save_then_load_restores; [done|].
  split; unfold HISTORY_LIMIT; simpl; lia.
Defined.
